(** * Turntable tool: a model of [scripts/create_turntable.py]

    The tool keeps three settings (camera distance, camera height, angle
    interval), two actions (Create, Apply) that drive the host scene, and
    one feedback rule that widens a slider's range.

    Python floats are modelled by exact rationals [Q]: the arithmetic of
    the source is read as arithmetic on the numbers it denotes, without
    rounding.  Equalities between computed numbers are therefore stated
    with [==].

    The host's scene commands and the toolkit's widgets are used by the
    script, not defined by it; they are modelled as far as the handlers
    use them, each next to the call it stands for. *)

From Stdlib Require Import ZArith QArith Qround Qminmax Lqa Lia List Bool.
From stdpp Require Import base option gmap.
Import ListNotations.

Local Open Scope Q_scope.

(** ** Errors and the command monad

    A Python exception aborts the handler but keeps every effect already
    performed on the scene and on the widgets: a command returns either an
    error or a value, together with the world reached so far. *)

Inductive error : Type :=
| ZeroDivisionError   (* float division by zero, line 359 *)
| HostError.          (* the host refuses a command: no such object *)

Definition result (A : Type) : Type := (error + A)%type.

Definition M (W A : Type) : Type := W -> result A * W.

Definition ret {W A} (a : A) : M W A := fun w => (inr a, w).

Definition bind {W A B} (m : M W A) (k : A -> M W B) : M W B :=
  fun w => match m w with
           | (inl e, w') => (inl e, w')
           | (inr a, w') => k a w'
           end.

Definition raise {W A} (e : error) : M W A := fun w => (inl e, w).
Definition get {W} : M W W := fun w => (inr w, w).
Definition modify {W} (f : W -> W) : M W unit := fun w => (inr tt, f w).

Notation "'let*' x ':=' m 'in' k" := (bind m (fun x => k))
  (at level 10, x name, m at level 100, k at level 200).

(** ** The host scene *)

Module Scene.

(** Tangent types of a key; [Auto] stands for whatever the host's
    preferences give a new key. *)
Inductive tangent : Type := Auto | Linear | Spline | Flat.

Record key : Type := mkKey {
  k_time : Q;
  k_value : Q;
  k_in : tangent;
  k_out : tangent
}.

Inductive kind : Type := Sphere | Camera | Group.

(** A transform node.  Only the [rotateY] channel carries animation in
    this tool, so a node has one curve: its keys, at most one per time
    once set by [set_key], in no particular order. *)
Record node : Type := mkNode {
  n_kind : kind;
  n_parent : option nat;
  n_tx : Q;
  n_ty : Q;
  n_tz : Q;
  n_rotateY : list key
}.

Record playback : Type := mkPlayback {
  minTime : Q;
  maxTime : Q;
  animationStartTime : Q;
  animationEndTime : Q
}.

(** Objects are identified by the node itself, as a [nameField] bound to
    an object is: the identifier survives the renaming that reparenting
    causes and dies with the object. *)
Record scene : Type := mkScene {
  nodes : gmap nat node;
  options : playback;
  selected_keys : list (nat * Q);
  default_tangent : tangent
}.

Definition objExists (o : nat) (s : scene) : bool :=
  match nodes s !! o with Some _ => true | None => false end.

(** *** Curves *)

Definition in_range (t0 t1 t : Q) : bool := Qle_bool t0 t && Qle_bool t t1.

Definition cut_keys (t0 t1 : Q) (ks : list key) : list key :=
  List.filter (fun k => negb (in_range t0 t1 (k_time k))) ks.

Definition set_key (k : key) (ks : list key) : list key :=
  k :: List.filter (fun k' => negb (Qeq_bool (k_time k') (k_time k))) ks.

Definition is_selected (o : nat) (sel : list (nat * Q)) (k : key) : bool :=
  existsb (fun p => Nat.eqb (fst p) o && Qeq_bool (snd p) (k_time k)) sel.

Definition retangent (o : nat) (sel : list (nat * Q)) (i u : tangent)
    (ks : list key) : list key :=
  List.map (fun k => if is_selected o sel k
                     then mkKey (k_time k) (k_value k) i u else k) ks.

Definition with_keys (nd : node) (ks : list key) : node :=
  mkNode (n_kind nd) (n_parent nd) (n_tx nd) (n_ty nd) (n_tz nd) ks.

Definition with_nodes (s : scene) (m : gmap nat node) : scene :=
  mkScene m (options s) (selected_keys s) (default_tangent s).

Definition with_options (s : scene) (p : playback) : scene :=
  mkScene (nodes s) p (selected_keys s) (default_tangent s).

Definition with_selection (s : scene) (sel : list (nat * Q)) : scene :=
  mkScene (nodes s) (options s) sel (default_tangent s).

End Scene.

(** ** The settings panel's widgets *)

Module Widgets.

Local Open Scope Z_scope.

Record spin_box : Type := mkSpin {
  sb_minimum : Z;
  sb_maximum : Z;
  sb_value : Z
}.

Record slider : Type := mkSlider {
  sl_minimum : Z;
  sl_maximum : Z;
  sl_value : Z
}.

(** A spin box and the slider wired to it (lines 215-230). *)
Record linked : Type := mkLinked {
  spin : spin_box;
  slide : slider
}.

Record double_spin_box : Type := mkDoubleSpin {
  ds_minimum : Q;
  ds_maximum : Q;
  ds_value : Q
}.

(** The toolkit keeps a value inside its widget's range. *)
Definition bound (lo hi v : Z) : Z := Z.max lo (Z.min hi v).

Definition Qbound (lo hi v : Q) : Q := Qmax lo (Qmin hi v).

(** A float handed to an integer parameter of the toolkit is cut to an
    integer towards zero.  The values met here lie within the spin box's
    range, so the 32-bit limit of the parameter is not modelled. *)
Definition to_int (x : Q) : Z := Z.quot (Qnum x) (Zpos (Qden x)).

Definition set_spin_value (v : Z) (p : linked) : linked :=
  mkLinked (mkSpin (sb_minimum (spin p)) (sb_maximum (spin p)) v) (slide p).

Definition set_slider_value (v : Z) (p : linked) : linked :=
  mkLinked (spin p) (mkSlider (sl_minimum (slide p)) (sl_maximum (slide p)) v).

Definition set_slider_range (lo hi : Z) (p : linked) : linked :=
  mkLinked (spin p) (mkSlider lo (Z.max lo hi) (sl_value (slide p))).

Definition buffer : Q := 0.98.
Definition increment : Q := 1.07.

Section Signals.

(** [spin_box.setValue] as seen from the slider's side of the wiring:
    the slots below call back into it when the slider's value moves. *)
Variable spin_setValue_rec : Z -> linked -> option linked.

(** [slider.setValue]: bound, store, and on a change emit
    [valueChanged], whose only slot is [spin_box.setValue]. *)
Definition slider_setValue_with (v : Z) (p : linked) : option linked :=
  let v' := bound (sl_minimum (slide p)) (sl_maximum (slide p)) v in
  if Z.eqb v' (sl_value (slide p)) then Some p
  else spin_setValue_rec v' (set_slider_value v' p).

(** [slider.setRange]: the maximum never goes below the minimum, and a
    changed range re-bounds the current value. *)
Definition slider_setRange_with (lo hi : Z) (p : linked) : option linked :=
  let p' := set_slider_range lo hi p in
  if Z.eqb lo (sl_minimum (slide p)) && Z.eqb (Z.max lo hi) (sl_maximum (slide p))
  then Some p
  else slider_setValue_with (sl_value (slide p')) p'.

(** [on_value_changed], lines 243-283. *)
Definition on_value_changed_with (spinner_value : Z) (p : linked)
    : option linked :=
  let v := inject_Z spinner_value in
  p1 ← (if Qle_bool (inject_Z (sl_maximum (slide p)) * buffer) v
        then
          let max_spin := (v * increment)%Q in
          let max_spin :=
            if Qle_bool (inject_Z (sb_maximum (spin p))) max_spin
            then inject_Z (sb_maximum (spin p)) else max_spin in
          slider_setRange_with (sl_minimum (slide p)) (to_int max_spin) p
        else Some p);
  if (sb_minimum (spin p1) <? 0)
     && Qle_bool v (inject_Z (sl_minimum (slide p1)) * buffer)
  then
    let negative_spin := (v * increment)%Q in
    let negative_spin :=
      if Qle_bool negative_spin (inject_Z (sb_minimum (spin p1)))
      then inject_Z (sb_minimum (spin p1)) else negative_spin in
    slider_setRange_with (to_int negative_spin) (sl_maximum (slide p1)) p1
  else Some p1.

End Signals.

(** [spin_box.setValue]: bound, store, and on a change emit
    [valueChanged], whose slots run in the order they were connected:
    first [on_value_changed] (line 218 or 223), then [slider.setValue]
    (line 227 or 229).  The fuel bounds the depth of nested emissions. *)
Fixpoint spin_setValue (fuel : nat) (v : Z) (p : linked) : option linked :=
  match fuel with
  | O => None
  | S n =>
      let v' := bound (sb_minimum (spin p)) (sb_maximum (spin p)) v in
      if Z.eqb v' (sb_value (spin p)) then Some p
      else
        p1 ← on_value_changed_with (spin_setValue n) v' (set_spin_value v' p);
        slider_setValue_with (spin_setValue n) v' p1
  end.

Definition slider_setValue (fuel : nat) : Z -> linked -> option linked :=
  slider_setValue_with (spin_setValue fuel).

Definition on_value_changed (fuel : nat) : Z -> linked -> option linked :=
  on_value_changed_with (spin_setValue fuel).

(** The two pairs as [initialize_UI] builds them (lines 96-105 and
    127-138); the values are set before any signal is connected. *)
Definition camera_distance_pair : linked :=
  mkLinked (mkSpin 0 2147483647 5) (mkSlider 0 60 5).

Definition camera_height_pair : linked :=
  mkLinked (mkSpin (-2147483647) 2147483647 2) (mkSlider (-20) 40 2).

(** Lines 158-164. *)
Definition turntable_rotation_double_spin_box : double_spin_box :=
  mkDoubleSpin (-90) 90 0.75.

(** [QDoubleSpinBox.setValue]: the value is kept within the range; the
    rounding to the box's decimals is not modelled. *)
Definition ds_setValue (v : Q) (d : double_spin_box) : double_spin_box :=
  mkDoubleSpin (ds_minimum d) (ds_maximum d)
               (Qbound (ds_minimum d) (ds_maximum d) v).

(** What the user can do to a pair. *)
Inductive action : Type :=
| SetSpin (v : Z)
| SetSlider (v : Z).

Definition perform (fuel : nat) (a : action) (p : linked) : option linked :=
  match a with
  | SetSpin v => spin_setValue fuel v p
  | SetSlider v => slider_setValue fuel v p
  end.

Fixpoint perform_all (fuel : nat) (acts : list action) (p : linked)
    : option linked :=
  match acts with
  | [] => Some p
  | a :: rest => p' ← perform fuel a p; perform_all fuel rest p'
  end.

(** The ranges of a pair as the tool keeps them: the slider's range lies
    within the spin box's and straddles zero, and the slider's value lies
    within the slider's range. *)
Definition well_ranged (p : linked) : Prop :=
  sb_minimum (spin p) <= sl_minimum (slide p) /\
  sl_minimum (slide p) <= 0 /\
  0 < sl_maximum (slide p) /\
  sl_maximum (slide p) <= sb_maximum (spin p) /\
  sl_minimum (slide p) <= sl_value (slide p) /\
  sl_value (slide p) <= sl_maximum (slide p).

(** A pair at rest: well ranged, with both controls on one value. *)
Definition well_wired (p : linked) : Prop :=
  well_ranged p /\ sb_value (spin p) = sl_value (slide p).

(** Is the value near or past the slider's maximum, or its minimum? *)
Definition near_maximum (v : Z) (p : linked) : bool :=
  Qle_bool (inject_Z (sl_maximum (slide p)) * buffer) (inject_Z v).

Definition near_minimum (v : Z) (p : linked) : bool :=
  (sb_minimum (spin p) <? 0)
  && Qle_bool (inject_Z v) (inject_Z (sl_minimum (slide p)) * buffer).

(** The slider's range once [on_value_changed] has seen the value [v]. *)
Definition widened_maximum (v : Z) (p : linked) : Z :=
  if near_maximum v p
  then to_int (Qmin (inject_Z v * increment) (inject_Z (sb_maximum (spin p))))
  else sl_maximum (slide p).

Definition widened_minimum (v : Z) (p : linked) : Z :=
  if near_minimum v p
  then to_int (Qmax (inject_Z v * increment) (inject_Z (sb_minimum (spin p))))
  else sl_minimum (slide p).

Definition widened (v : Z) (p : linked) : linked :=
  mkLinked (spin p)
    (mkSlider (widened_minimum v p) (widened_maximum v p) (sl_value (slide p))).

(** A pair with both controls on [x] and the slider's range widened for
    [x]. *)
Definition synced (x : Z) (p : linked) : linked :=
  mkLinked (mkSpin (sb_minimum (spin p)) (sb_maximum (spin p)) x)
    (mkSlider (widened_minimum x p) (widened_maximum x p) x).

End Widgets.

(** ** The tool *)

Module Turntable.

Import Scene Widgets.

(** The attributes of [CreateTurntable] that the handlers read or write. *)
Record tool : Type := mkTool {
  turntable_field : option nat;
  camera_field : option nat;
  group_field : option nat;
  camera_distance : Z;
  camera_height : Z;
  angle_interval : Q;
  camera_distance_widgets : linked;
  camera_height_widgets : linked;
  rotation_widget : double_spin_box;
  apply_enabled : bool
}.

Record world : Type := mkWorld {
  host : scene;
  ui : tool
}.

Definition cmd (A : Type) : Type := M world A.

Definition on_host (f : scene -> scene) : cmd unit :=
  modify (fun w => mkWorld (f (host w)) (ui w)).

Definition on_ui (f : tool -> tool) : cmd unit :=
  modify (fun w => mkWorld (host w) (f (ui w))).

(** *** Host commands *)

Definition Qlt_bool (a b : Q) : bool := negb (Qle_bool b a).

Definition py_div (a b : Q) : cmd Q :=
  if Qeq_bool b 0 then raise ZeroDivisionError else ret (a / b).

Definition query_minTime : cmd Q :=
  let* w := get in ret (minTime (options (host w))).

Definition query_animationEndTime : cmd Q :=
  let* w := get in ret (animationEndTime (options (host w))).

Definition set_maxTime (t : Q) : cmd unit :=
  on_host (fun s => with_options s
    (mkPlayback (minTime (options s)) t
                (animationStartTime (options s)) (animationEndTime (options s)))).

Definition set_animationEndTime (t : Q) : cmd unit :=
  on_host (fun s => with_options s
    (mkPlayback (minTime (options s)) (maxTime (options s))
                (animationStartTime (options s)) t)).

(** A command on a named object fails when no such object exists. *)
Definition the_node (o : nat) : cmd node :=
  let* w := get in
  match nodes (host w) !! o with
  | Some nd => ret nd
  | None => raise HostError
  end.

Definition put_node (o : nat) (nd : node) : cmd unit :=
  on_host (fun s => with_nodes s (<[o := nd]> (nodes s))).

(** [cutKey(o, time=(t0, t1), attribute="rotateY")]: the keys of the
    range go, and with them their selection. *)
Definition cutKey (o : nat) (t0 t1 : Q) : cmd unit :=
  let* nd := the_node o in
  let* _ := put_node o (with_keys nd (cut_keys t0 t1 (n_rotateY nd))) in
  on_host (fun s => with_selection s
    (List.filter (fun p => negb (Nat.eqb (fst p) o && in_range t0 t1 (snd p)))
                 (selected_keys s))).

(** [setKeyframe(o, time=t, attribute="rotateY", value=v)]. *)
Definition setKeyframe (o : nat) (t v : Q) : cmd unit :=
  let* nd := the_node o in
  let* w := get in
  let d := default_tangent (host w) in
  put_node o (with_keys nd (set_key (mkKey t v d d) (n_rotateY nd))).

(** [selectKey(o, time=(t0, t1), attribute="rotateY", keyframe=True)]
    replaces the key selection. *)
Definition selectKey (o : nat) (t0 t1 : Q) : cmd unit :=
  let* nd := the_node o in
  on_host (fun s => with_selection s
    (List.map (fun k => (o, k_time k))
              (List.filter (fun k => in_range t0 t1 (k_time k)) (n_rotateY nd)))).

(** [keyTangent(inTangentType=i, outTangentType=u)], with no object
    named, acts on the selected keys. *)
Definition keyTangent (i u : tangent) : cmd unit :=
  on_host (fun s => with_nodes s
    (map_imap (fun o nd =>
       Some (with_keys nd (retangent o (selected_keys s) i u (n_rotateY nd))))
       (nodes s))).

(** Creation of a transform node under a new identifier. *)
Definition new_node (nd : node) : cmd nat :=
  let* w := get in
  let o := fresh (dom (nodes (host w))) in
  let* _ := put_node o nd in
  ret o.

Definition sphere_node : node := mkNode Sphere None 0 0 0 [].

Definition camera_node (parent : option nat) (height distance : Z) : node :=
  mkNode Camera parent 0 (inject_Z height) (inject_Z distance) [].

Definition group_node (parent : option nat) (ks : list key) : node :=
  mkNode Group parent 0 0 0 ks.

(** [polySphere(n=...)], [camera(n=..., p=[x, y, z])] and
    [group(em=True, n=...)]: a sphere at the origin, a camera at the
    given position, an empty group at the origin, none with a parent. *)
Definition polySphere : cmd nat := new_node sphere_node.

Definition camera (x y z : Q) : cmd nat := new_node (mkNode Camera None x y z []).

Definition group_empty : cmd nat := new_node (group_node None []).

(** [parent(child, new_parent, relative=True)]: the child keeps its local
    transform. *)
Definition parent (child new_parent : nat) : cmd unit :=
  let* c := the_node child in
  let* _ := the_node new_parent in
  put_node child
    (mkNode (n_kind c) (Some new_parent) (n_tx c) (n_ty c) (n_tz c) (n_rotateY c)).

Definition setAttr_translateY (o : nat) (v : Q) : cmd unit :=
  let* nd := the_node o in
  put_node o (mkNode (n_kind nd) (n_parent nd) (n_tx nd) v (n_tz nd) (n_rotateY nd)).

Definition setAttr_translateZ (o : nat) (v : Q) : cmd unit :=
  let* nd := the_node o in
  put_node o (mkNode (n_kind nd) (n_parent nd) (n_tx nd) (n_ty nd) v (n_rotateY nd)).

(** [nameField(field, query=True, object=True)]: the object the field is
    bound to; a field that was never made is refused. *)
Definition nameField_query (field : tool -> option nat) : cmd nat :=
  let* w := get in
  match field (ui w) with
  | Some o => ret o
  | None => raise HostError
  end.

(** The keys that lines 365-368 leave on a channel holding [ks]: the
    range is cut and both of its ends are keyed, with the host's default
    tangents. *)
Definition keyed_range (d : tangent) (t0 t1 v : Q) (ks : list key) : list key :=
  set_key (mkKey t1 v d d) (set_key (mkKey t0 0 d d) (cut_keys t0 t1 ks)).

(** The keys of a channel that lie in a range, as a selection. *)
Definition keys_in_range (o : nat) (t0 t1 : Q) (ks : list key)
    : list (nat * Q) :=
  List.map (fun k => (o, k_time k))
    (List.filter (fun k => in_range t0 t1 (k_time k)) ks).

(** The curve that lines 365-371 leave on a channel holding [ks]: after
    the keys are set, the range is selected and the selection made
    linear. *)
Definition rotation_keys (o : nat) (d : tangent) (t0 t1 v : Q)
    (ks : list key) : list key :=
  retangent o (keys_in_range o t0 t1 (keyed_range d t0 t1 v ks))
    Linear Linear (keyed_range d t0 t1 v ks).

(** [wp m w post]: from [w], the command [m] ends without an error, in a
    world and with a value that satisfy [post]. *)
Definition wp {A} (m : cmd A) (w : world) (post : A -> world -> Prop) : Prop :=
  match m w with
  | (inr a, w') => post a w'
  | (inl _, _) => False
  end.

(** [ends m w post]: what [m] returns from [w], error or value, and the
    world it leaves satisfy [post]. *)
Definition ends {A} (m : cmd A) (w : world)
    (post : result A -> world -> Prop) : Prop :=
  post (fst (m w)) (snd (m w)).

(** *** The handlers *)

(** Lines 285-289. *)
Definition read_settings (t : tool) : tool :=
  mkTool (turntable_field t) (camera_field t) (group_field t)
         (sb_value (spin (camera_distance_widgets t)))
         (sb_value (spin (camera_height_widgets t)))
         (ds_value (rotation_widget t))
         (camera_distance_widgets t) (camera_height_widgets t)
         (rotation_widget t) (apply_enabled t).

Definition update_setting_values : cmd unit := on_ui read_settings.

Definition set_fields (tf cf gf : option nat) (t : tool) : tool :=
  mkTool tf cf gf (camera_distance t) (camera_height t) (angle_interval t)
         (camera_distance_widgets t) (camera_height_widgets t)
         (rotation_widget t) (apply_enabled t).

Definition set_apply_enabled (b : bool) (t : tool) : tool :=
  mkTool (turntable_field t) (camera_field t) (group_field t)
         (camera_distance t) (camera_height t) (angle_interval t)
         (camera_distance_widgets t) (camera_height_widgets t)
         (rotation_widget t) b.

(** The end time of line 359, for a start time and an angle interval. *)
Definition end_time_of (start_time interval : Q) : Q :=
  ((360 - interval) / interval) + (start_time - 1).

(** Lines 349-371. *)
Definition set_rotation (rotator : nat) : cmd unit :=
  let* start_time := query_minTime in
  let* w := get in
  let* frames := py_div (360 - angle_interval (ui w)) (angle_interval (ui w)) in
  let end_time := frames + (start_time - 1) in
  let* _ := set_maxTime end_time in
  let* aet := query_animationEndTime in
  let* _ := (if Qlt_bool aet end_time
             then set_animationEndTime end_time else ret tt) in
  let* _ := cutKey rotator start_time end_time in
  let* _ := setKeyframe rotator start_time 0 in
  let* _ := setKeyframe rotator end_time (end_time * angle_interval (ui w)) in
  let* _ := selectKey rotator start_time end_time in
  keyTangent Linear Linear.

(** Lines 291-329. *)
Definition create_button_on_clicked : cmd unit :=
  let* _ := update_setting_values in
  let* turntable_transform := polySphere in
  let* _ := on_ui (fun t => set_fields (Some turntable_transform)
                                       (camera_field t) (group_field t) t) in
  let* turntable_name := nameField_query turntable_field in
  let* w := get in
  let* camera_transform :=
    camera 0 (inject_Z (camera_height (ui w)))
             (inject_Z (camera_distance (ui w))) in
  let* _ := on_ui (fun t => set_fields (turntable_field t)
                                       (Some camera_transform) (group_field t) t) in
  let* camera_name := nameField_query camera_field in
  let* rotator_group := group_empty in
  let* _ := on_ui (fun t => set_fields (turntable_field t) (camera_field t)
                                       (Some rotator_group) t) in
  let* rotator_name := nameField_query group_field in
  let* _ := parent camera_name rotator_name in
  let* _ := parent rotator_name turntable_name in
  let* rotator_name := nameField_query group_field in
  let* _ := set_rotation rotator_name in
  on_ui (set_apply_enabled true).

(** Lines 331-347. *)
Definition apply_button_on_clicked : cmd unit :=
  let* _ := update_setting_values in
  let* rotator_name := nameField_query group_field in
  let* camera_name := nameField_query camera_field in
  let* w := get in
  if objExists camera_name (host w) && objExists rotator_name (host w)
  then
    let* _ := setAttr_translateY camera_name (inject_Z (camera_height (ui w))) in
    let* _ := setAttr_translateZ camera_name (inject_Z (camera_distance (ui w))) in
    set_rotation rotator_name
  else create_button_on_clicked.

(** The world that [set_rotation] reaches when the rotator exists, as the
    node [nd], and the angle interval is not zero; [set_rotation_runs]
    proves it. *)
Definition rotation_world (rotator : nat) (nd : node) (w : world) : world :=
  let start_time := minTime (options (host w)) in
  let end_time := end_time_of start_time (angle_interval (ui w)) in
  let d := default_tangent (host w) in
  let aet := animationEndTime (options (host w)) in
  mkWorld
    (mkScene
       (<[rotator :=
            with_keys nd
              (rotation_keys rotator d start_time end_time
                 (end_time * angle_interval (ui w)) (n_rotateY nd))]>
          (nodes (host w)))
       (mkPlayback start_time end_time
          (animationStartTime (options (host w)))
          (if Qlt_bool aet end_time then end_time else aet))
       (keys_in_range rotator start_time end_time
          (keyed_range d start_time end_time
             (end_time * angle_interval (ui w)) (n_rotateY nd)))
       d)
    (ui w).

(** The three identifiers that Create draws from a scene holding [m], in
    the order sphere, camera, group. *)
Definition new_sphere (m : gmap nat node) : nat := fresh (dom m).

Definition new_camera (m : gmap nat node) : nat :=
  fresh ({[new_sphere m]} ∪ dom m).

Definition new_group (m : gmap nat node) : nat :=
  fresh ({[new_camera m]} ∪ ({[new_sphere m]} ∪ dom m)).

(** The world that Create reaches when the angle interval typed in the
    panel is not zero; [create_runs] proves it. *)
Definition created_world (w : world) : world :=
  let m := nodes (host w) in
  let distance := sb_value (spin (camera_distance_widgets (ui w))) in
  let height := sb_value (spin (camera_height_widgets (ui w))) in
  let interval := ds_value (rotation_widget (ui w)) in
  let t := new_sphere m in
  let c := new_camera m in
  let g := new_group m in
  let start_time := minTime (options (host w)) in
  let end_time := end_time_of start_time interval in
  let d := default_tangent (host w) in
  let aet := animationEndTime (options (host w)) in
  mkWorld
    (mkScene
       (<[g := group_node (Some t)
                 (rotation_keys g d start_time end_time
                    (end_time * interval) [])]>
          (<[c := camera_node (Some g) height distance]>
             (<[t := sphere_node]> m)))
       (mkPlayback start_time end_time
          (animationStartTime (options (host w)))
          (if Qlt_bool aet end_time then end_time else aet))
       (keys_in_range g start_time end_time
          (keyed_range d start_time end_time (end_time * interval) []))
       d)
    (mkTool (Some t) (Some c) (Some g) distance height interval
            (camera_distance_widgets (ui w)) (camera_height_widgets (ui w))
            (rotation_widget (ui w)) true).

(** The scene and the tool on which Apply calls [set_rotation] when the
    camera [c] of the last rig, the node [cn], and its group are still in
    the scene: the settings are read and the camera is moved. *)
Definition moved_world (c : nat) (cn : node) (w : world) : world :=
  mkWorld
    (mkScene
       (<[c := mkNode (n_kind cn) (n_parent cn) (n_tx cn)
                 (inject_Z (sb_value (spin (camera_height_widgets (ui w)))))
                 (inject_Z (sb_value (spin (camera_distance_widgets (ui w)))))
                 (n_rotateY cn)]>
          (nodes (host w)))
       (options (host w)) (selected_keys (host w))
       (default_tangent (host w)))
    (read_settings (ui w)).

(** The world that Apply reaches when moreover the group [g] is the node
    [gn] and the angle interval typed in the panel is not zero;
    [apply_updates] proves it. *)
Definition applied_world (c g : nat) (cn gn : node) (w : world) : world :=
  rotation_world g gn (moved_world c cn w).

(** Where an object stands, relative to its parent. *)
Definition translate_of (o : nat) (w : world) : option (Q * Q * Q) :=
  match nodes (host w) !! o with
  | Some nd => Some (n_tx nd, n_ty nd, n_tz nd)
  | None => None
  end.

Definition parent_of (o : nat) (w : world) : option (option nat) :=
  match nodes (host w) !! o with
  | Some nd => Some (n_parent nd)
  | None => None
  end.

Definition kind_of (o : nat) (w : world) : option kind :=
  match nodes (host w) !! o with
  | Some nd => Some (n_kind nd)
  | None => None
  end.

(** The world in which Create stops when the angle interval typed in the
    panel is zero: line 359 raises once the three objects are made and
    parented; [create_stalls] proves it. *)
Definition stalled_world (w : world) : world :=
  let m := nodes (host w) in
  let distance := sb_value (spin (camera_distance_widgets (ui w))) in
  let height := sb_value (spin (camera_height_widgets (ui w))) in
  let t := new_sphere m in
  let c := new_camera m in
  let g := new_group m in
  mkWorld
    (mkScene
       (<[g := group_node (Some t) []]>
          (<[c := camera_node (Some g) height distance]>
             (<[t := sphere_node]> m)))
       (options (host w)) (selected_keys (host w)) (default_tangent (host w)))
    (mkTool (Some t) (Some c) (Some g) distance height
            (ds_value (rotation_widget (ui w)))
            (camera_distance_widgets (ui w)) (camera_height_widgets (ui w))
            (rotation_widget (ui w)) (apply_enabled (ui w))).

(** The tool as [__init__] leaves it (lines 62-71, 192). *)
Definition new_tool : tool :=
  mkTool None None None 5 2 0.75
         camera_distance_pair camera_height_pair
         turntable_rotation_double_spin_box false.

(** An empty scene with the host's usual playback range. *)
Definition new_scene : scene :=
  mkScene ∅ (mkPlayback 1 120 1 200) [] Auto.

Definition new_world : world := mkWorld new_scene new_tool.

(** The keys on the [rotateY] channel of an object. *)
Definition rotateY_keys (o : nat) (w : world) : list key :=
  match nodes (host w) !! o with
  | Some nd => n_rotateY nd
  | None => []
  end.

(** A scene holding one empty group, with a playback range of a thousand
    frames, and the tool as it starts. *)
Definition lone_group : node := mkNode Group None 0 0 0 [].

Definition long_world : world :=
  mkWorld (mkScene {[ 0%nat := lone_group ]} (mkPlayback 1 1000 1 1000) [] Auto)
          new_tool.

(** The user removes an object from the scene. *)
Definition delete_object (o : nat) (w : world) : world :=
  mkWorld (with_nodes (host w) (delete o (nodes (host w)))) (ui w).

(** The user types an angle interval into its spin box. *)
Definition type_angle (v : Q) (w : world) : world :=
  mkWorld (host w)
    (mkTool (turntable_field (ui w)) (camera_field (ui w)) (group_field (ui w))
            (camera_distance (ui w)) (camera_height (ui w)) (angle_interval (ui w))
            (camera_distance_widgets (ui w)) (camera_height_widgets (ui w))
            (ds_setValue v (rotation_widget (ui w))) (apply_enabled (ui w))).

(** The tool just opened on an empty scene, with 0 typed as the angle
    interval. *)
Definition zero_world : world := type_angle 0 new_world.

(** A rig made by Create from the tool just opened, whose camera the user
    then removed; and the same with 0 typed as the angle interval. *)
Definition orphaned_world : world :=
  delete_object 1 (snd (create_button_on_clicked new_world)).

Definition orphaned_zero_world : world := type_angle 0 orphaned_world.

(** The panel after an edit that leaves the angle spin box on [i]. *)
Definition show_angle (i : Q) (w : world) : world :=
  mkWorld (host w)
    (mkTool (turntable_field (ui w)) (camera_field (ui w)) (group_field (ui w))
            (camera_distance (ui w)) (camera_height (ui w)) (angle_interval (ui w))
            (camera_distance_widgets (ui w)) (camera_height_widgets (ui w))
            (mkDoubleSpin (ds_minimum (rotation_widget (ui w)))
                          (ds_maximum (rotation_widget (ui w))) i)
            (apply_enabled (ui w))).

(** The panel after edits that leave the camera distance pair as [dp] and
    the camera height pair as [hp]. *)
Definition with_pairs (dp hp : linked) (w : world) : world :=
  mkWorld (host w)
    (mkTool (turntable_field (ui w)) (camera_field (ui w)) (group_field (ui w))
            (camera_distance (ui w)) (camera_height (ui w)) (angle_interval (ui w))
            dp hp (rotation_widget (ui w)) (apply_enabled (ui w))).

(** A group that already carries keys on rotateY: at frames 1 and 100,
    within the range the tool animates with the settings it starts with,
    and at frame 600, beyond it; and a scene holding that group, with a
    playback range of a thousand frames. *)
Definition keyed_group : node :=
  mkNode Group None 0 0 0
         [mkKey 1 10 Flat Flat; mkKey 100 45 Spline Spline;
          mkKey 600 90 Flat Flat].

Definition keyed_world : world :=
  mkWorld (mkScene {[ 0%nat := keyed_group ]} (mkPlayback 1 1000 1 1000) [] Auto)
          new_tool.

(** The same scene once 0 was typed as the angle interval and read by
    [update_setting_values]. *)
Definition keyed_zero_world : world :=
  snd (update_setting_values (type_angle 0 keyed_world)).

(** A scene whose playback starts at frame 101, with 0.25 typed as the
    angle interval and read by [update_setting_values]. *)
Definition late_world : world :=
  snd (update_setting_values
         (type_angle 0.25
            (mkWorld (mkScene {[ 0%nat := lone_group ]}
                              (mkPlayback 101 1000 1 1000) [] Auto)
                     new_tool))).

End Turntable.

(** * Properties *)

Import Scene Widgets Turntable.

(** ** Commands *)

Section Commands.

Context {A B : Type}.

Lemma wp_bind (m : cmd A) (k : A -> cmd B) w post :
  wp m w (fun a w' => wp (k a) w' post) -> wp (bind m k) w post.
Proof.
  unfold wp, bind. destruct (m w) as [[e|a] w']; [intros [] | trivial].
Qed.

Lemma wp_ret (a : A) w (post : A -> world -> Prop) :
  post a w -> wp (ret a) w post.
Proof. trivial. Qed.

Lemma wp_run (m : cmd A) w post :
  wp m w post -> exists a w', m w = (inr a, w') /\ post a w'.
Proof.
  unfold wp. destruct (m w) as [[e|a] w']; [intros [] | eauto].
Qed.

Lemma wp_of_run (m : cmd A) w a w' (post : A -> world -> Prop) :
  m w = (inr a, w') -> post a w' -> wp m w post.
Proof. unfold wp. intros ->. trivial. Qed.

Lemma bind_runs (m : cmd A) (k : A -> cmd B) w a w' :
  m w = (inr a, w') -> bind m k w = k a w'.
Proof. unfold bind. intros ->. reflexivity. Qed.

End Commands.

Lemma wp_get w (post : world -> world -> Prop) : post w w -> wp get w post.
Proof. trivial. Qed.

Lemma wp_modify f w (post : unit -> world -> Prop) :
  post tt (f w) -> wp (modify f) w post.
Proof. trivial. Qed.

Lemma wp_the_node o w nd (post : node -> world -> Prop) :
  nodes (host w) !! o = Some nd -> post nd w -> wp (the_node o) w post.
Proof.
  intros Ho Hp. unfold wp, the_node, bind, get. rewrite Ho. exact Hp.
Qed.

Lemma wp_new_node nd w (post : nat -> world -> Prop) :
  post (fresh (dom (nodes (host w))))
       (mkWorld (with_nodes (host w)
                   (<[fresh (dom (nodes (host w))) := nd]> (nodes (host w))))
                (ui w)) ->
  wp (new_node nd) w post.
Proof. trivial. Qed.

Lemma wp_nameField_query (field : tool -> option nat) w o
    (post : nat -> world -> Prop) :
  field (ui w) = Some o -> post o w -> wp (nameField_query field) w post.
Proof.
  intros Hf Hp. unfold wp, nameField_query, bind, get. rewrite Hf. exact Hp.
Qed.

Lemma ends_bind {A B} (m : cmd A) (k : A -> cmd B) w post :
  wp m w (fun a w' => ends (k a) w' post) -> ends (bind m k) w post.
Proof.
  unfold wp, ends, bind. destruct (m w) as [[e|a] w']; [intros [] | trivial].
Qed.

Lemma ends_raised {A B} (m : cmd A) (k : A -> cmd B) w e w'
    (post : result B -> world -> Prop) :
  m w = (inl e, w') -> post (inl e) w' -> ends (bind m k) w post.
Proof. unfold ends, bind. intros ->. trivial. Qed.

Lemma ends_run {A} (m : cmd A) w r w' :
  ends m w (fun r0 w0 => r0 = r /\ w0 = w') -> m w = (r, w').
Proof. unfold ends. destruct (m w). cbn. intros [-> ->]. reflexivity. Qed.

Lemma wp_new_node_as o nd w (post : nat -> world -> Prop) :
  o = fresh (dom (nodes (host w))) ->
  post o (mkWorld (with_nodes (host w) (<[o := nd]> (nodes (host w)))) (ui w)) ->
  wp (new_node nd) w post.
Proof. intros ->. apply wp_new_node. Qed.

Ltac wp_norm :=
  unfold with_nodes, with_options, with_selection, set_fields,
    set_apply_enabled, read_settings;
  cbn [host ui nodes options selected_keys default_tangent
       minTime maxTime animationStartTime animationEndTime
       turntable_field camera_field group_field camera_distance camera_height
       angle_interval camera_distance_widgets camera_height_widgets
       rotation_widget apply_enabled
       n_kind n_parent n_tx n_ty n_tz n_rotateY].

Ltac wp_step :=
  lazymatch goal with
  | |- ends (bind (set_rotation _) _) _ _ => fail
  | |- ends (bind _ _) _ _ => apply ends_bind
  | |- wp (bind _ _) _ _ => apply wp_bind
  | |- wp get _ _ => apply wp_get
  | |- wp (ret _) _ _ => apply wp_ret
  | |- wp (modify _) _ _ => apply wp_modify
  | |- wp (nameField_query _) _ _ =>
      eapply wp_nameField_query; [reflexivity|]
  end; wp_norm.

Ltac lookup_insert :=
  cbn [host nodes];
  repeat first [ rewrite lookup_insert_eq
               | rewrite lookup_insert_ne by congruence ];
  try reflexivity; try assumption.

(** ** Curves *)

Section Curves.

Lemma filter_all {X} (p : X -> bool) (l : list X) :
  (forall x, In x l -> p x = true) -> List.filter p l = l.
Proof.
  induction l as [|x l IH]; simpl; intros H; [reflexivity|].
  rewrite (H x (or_introl eq_refl)). f_equal. apply IH. auto.
Qed.

Lemma filter_none {X} (p : X -> bool) (l : list X) :
  (forall x, In x l -> p x = false) -> List.filter p l = [].
Proof.
  induction l as [|x l IH]; simpl; intros H; [reflexivity|].
  rewrite (H x (or_introl eq_refl)). apply IH. auto.
Qed.

Lemma in_range_iff t0 t1 t : in_range t0 t1 t = true <-> t0 <= t /\ t <= t1.
Proof.
  unfold in_range. rewrite andb_true_iff, !Qle_bool_iff. tauto.
Qed.

Lemma in_range_empty t0 t1 t : t1 < t0 -> in_range t0 t1 t = false.
Proof.
  intros H. apply not_true_is_false. rewrite in_range_iff. lra.
Qed.

Lemma Qeq_bool_false a b : ~ a == b -> Qeq_bool a b = false.
Proof.
  intros H. apply not_true_is_false. intros E. apply H, Qeq_bool_eq, E.
Qed.

Lemma Qeq_bool_refl a : Qeq_bool a a = true.
Proof. apply Qeq_eq_bool. reflexivity. Qed.

(** Keys that survive a cut lie outside the range. *)
Lemma cut_keys_outside t0 t1 ks k :
  In k (cut_keys t0 t1 ks) -> in_range t0 t1 (k_time k) = false.
Proof.
  unfold cut_keys. rewrite filter_In. intros [_ H].
  now apply negb_true_iff in H.
Qed.

Lemma cut_keys_idem t0 t1 ks :
  cut_keys t0 t1 (cut_keys t0 t1 ks) = cut_keys t0 t1 ks.
Proof.
  apply filter_all. intros k Hk.
  now rewrite (cut_keys_outside _ _ _ _ Hk).
Qed.

Lemma cut_keys_empty_range t0 t1 ks : t1 < t0 -> cut_keys t0 t1 ks = ks.
Proof.
  intros H. apply filter_all. intros k _. now rewrite in_range_empty.
Qed.

Lemma not_selected_nil o i u ks : retangent o [] i u ks = ks.
Proof.
  unfold retangent. simpl. induction ks; simpl; congruence.
Qed.

Lemma retangent_unselected o sel i u ks :
  (forall k, In k ks -> is_selected o sel k = false) ->
  retangent o sel i u ks = ks.
Proof.
  unfold retangent. induction ks as [|k ks IH]; simpl; intros H; [reflexivity|].
  rewrite (H k (or_introl eq_refl)). f_equal. apply IH. auto.
Qed.

(** A selection made on one object leaves the keys of the others alone. *)
Lemma is_selected_other o o' (ts : list key) k :
  o' <> o ->
  is_selected o' (List.map (fun k => (o, k_time k)) ts) k = false.
Proof.
  intros Hne. unfold is_selected.
  induction ts as [|x ts IH]; simpl; [reflexivity|].
  rewrite IH, orb_false_r.
  apply andb_false_iff. left. now apply Nat.eqb_neq.
Qed.

Lemma with_keys_same nd : with_keys nd (n_rotateY nd) = nd.
Proof. now destruct nd. Qed.

(** With the end after the start, the channel ends up holding the two
    new keys, made linear, in front of the old keys outside the range. *)
Lemma rotation_keys_forward o d t0 t1 v ks :
  t0 < t1 ->
  rotation_keys o d t0 t1 v ks =
  [mkKey t1 v Linear Linear; mkKey t0 0 Linear Linear] ++ cut_keys t0 t1 ks.
Proof.
  intros Hlt. unfold rotation_keys, keys_in_range, keyed_range, set_key.
  cbn [k_time].
  assert (H0 : List.filter (fun k' => negb (Qeq_bool (k_time k') t0))
                 (cut_keys t0 t1 ks) = cut_keys t0 t1 ks).
  { apply filter_all. intros k Hk. apply cut_keys_outside in Hk.
    apply negb_true_iff, Qeq_bool_false. intros E.
    apply not_true_iff_false in Hk. apply Hk.
    apply in_range_iff. rewrite E. lra. }
  assert (H1 : List.filter (fun k' => negb (Qeq_bool (k_time k') t1))
                 (cut_keys t0 t1 ks) = cut_keys t0 t1 ks).
  { apply filter_all. intros k Hk. apply cut_keys_outside in Hk.
    apply negb_true_iff, Qeq_bool_false. intros E.
    apply not_true_iff_false in Hk. apply Hk.
    apply in_range_iff. rewrite E. lra. }
  rewrite H0. cbn [List.filter k_time].
  rewrite (Qeq_bool_false t0 t1) by lra. cbn [negb]. rewrite H1.
  assert (Hin1 : in_range t0 t1 t1 = true) by (apply in_range_iff; lra).
  assert (Hin0 : in_range t0 t1 t0 = true) by (apply in_range_iff; lra).
  rewrite Hin1. cbn [List.filter k_time]. rewrite Hin0.
  rewrite (filter_none _ (cut_keys t0 t1 ks))
    by (intros k Hk; apply (cut_keys_outside _ _ _ _ Hk)).
  unfold retangent. cbn [List.map is_selected existsb fst snd k_time k_value].
  rewrite Nat.eqb_refl, !Qeq_bool_refl. cbn [andb orb].
  rewrite orb_true_r. cbn [app]. do 2 f_equal.
  rewrite <- (map_id (cut_keys t0 t1 ks)) at 2.
  apply map_ext_in. intros k Hk. apply cut_keys_outside in Hk.
  rewrite !Qeq_bool_false; [reflexivity| |];
    intros E; apply not_true_iff_false in Hk; apply Hk;
    apply in_range_iff; rewrite <- E; lra.
Qed.

(** With the end before the start, the range is empty: nothing is cut
    or selected, and the two keys keep the default tangents. *)
Lemma rotation_keys_backward o d t0 t1 v ks :
  t1 < t0 ->
  rotation_keys o d t0 t1 v ks =
  mkKey t1 v d d :: mkKey t0 0 d d ::
    List.filter (fun k' => negb (Qeq_bool (k_time k') t1))
      (List.filter (fun k' => negb (Qeq_bool (k_time k') t0)) ks).
Proof.
  intros Hlt. unfold rotation_keys, keys_in_range, keyed_range.
  rewrite cut_keys_empty_range by exact Hlt.
  rewrite (filter_none (fun k => in_range t0 t1 (k_time k)))
    by (intros k _; now apply in_range_empty).
  cbn [List.map]. rewrite not_selected_nil.
  unfold set_key. cbn [k_time List.filter].
  rewrite (Qeq_bool_false t0 t1) by lra. reflexivity.
Qed.

End Curves.

(** ** The rotation animation *)

Section Rotation.

Variables (r : nat) (w : world) (nd : node).
Hypothesis rotator_exists : nodes (host w) !! r = Some nd.

(** Line 359 raises when the angle interval is zero, before any effect. *)
Lemma set_rotation_raises :
  Qeq_bool (angle_interval (ui w)) 0 = true ->
  forall o, set_rotation o w = (inl ZeroDivisionError, w).
Proof.
  intros Hz o. unfold set_rotation, query_minTime, py_div, bind, get, ret, raise.
  rewrite Hz. reflexivity.
Qed.

Lemma set_rotation_runs :
  Qeq_bool (angle_interval (ui w)) 0 = false ->
  set_rotation r w = (inr tt, rotation_world r nd w).
Proof using rotator_exists.
  intros Hz.
  unfold set_rotation, query_minTime, py_div, set_maxTime,
    query_animationEndTime, set_animationEndTime, cutKey, setKeyframe,
    selectKey, keyTangent, the_node, put_node, on_host, bind, get, ret,
    modify, raise.
  simpl. rewrite Hz. simpl.
  unfold rotation_world, end_time_of.
  destruct (Qlt_bool _ _); simpl; rewrite rotator_exists; simpl;
    rewrite lookup_insert_eq; simpl; rewrite lookup_insert_eq; simpl;
    rewrite lookup_insert_eq; simpl.
  all: f_equal; f_equal; unfold with_nodes, with_selection, with_options;
    simpl; f_equal.
  all: apply map_eq; intros o; rewrite map_lookup_imap;
    destruct (decide (o = r)) as [->|Hne];
    [ rewrite !lookup_insert_eq; reflexivity
    | rewrite !lookup_insert_ne by congruence;
      destruct (nodes (host w) !! o) as [n|]; [|reflexivity]; simpl;
      rewrite retangent_unselected, with_keys_same;
      [reflexivity | intros k _; now apply is_selected_other] ].
Qed.

End Rotation.

(** ** The end time *)

Section EndTime.

Variables start_time interval : Q.

Lemma end_time_of_formula :
  end_time_of start_time interval
  == start_time - 1 + (360 - interval) / interval.
Proof. unfold end_time_of. ring. Qed.

Lemma frames_at_least_3 :
  0 < interval -> interval <= 90 -> 3 <= (360 - interval) / interval.
Proof.
  intros Hpos Hle. apply Qle_shift_div_l; [exact Hpos | lra].
Qed.

Lemma end_time_of_after :
  0 < interval -> interval <= 90 ->
  start_time + 2 <= end_time_of start_time interval.
Proof.
  intros Hpos Hle. unfold end_time_of.
  pose proof (frames_at_least_3 Hpos Hle). lra.
Qed.

Lemma frames_at_most_minus_5 :
  interval < 0 -> -90 <= interval -> (360 - interval) / interval <= -5.
Proof.
  intros Hneg Hge.
  assert (H : 5 <= (360 - interval) / (- interval)).
  { apply Qle_shift_div_l; lra. }
  assert (E : (360 - interval) / interval
              == - ((360 - interval) / (- interval))).
  { field. lra. }
  rewrite E. lra.
Qed.

Lemma end_time_of_before :
  interval < 0 -> -90 <= interval ->
  end_time_of start_time interval < start_time.
Proof.
  intros Hneg Hge. unfold end_time_of.
  pose proof (frames_at_most_minus_5 Hneg Hge). lra.
Qed.

Lemma end_value_formula :
  ~ interval == 0 ->
  end_time_of start_time interval * interval
  == 360 + (start_time - 2) * interval.
Proof. intros Hnz. unfold end_time_of. field. exact Hnz. Qed.

End EndTime.

Lemma nonzero_Qeq_bool a : ~ a == 0 -> Qeq_bool a 0 = false.
Proof. apply Qeq_bool_false. Qed.

Lemma rotateY_keys_rotation_world r nd w :
  rotateY_keys r (rotation_world r nd w) =
  rotation_keys r (default_tangent (host w)) (minTime (options (host w)))
    (end_time_of (minTime (options (host w))) (angle_interval (ui w)))
    (end_time_of (minTime (options (host w))) (angle_interval (ui w))
     * angle_interval (ui w))
    (n_rotateY nd).
Proof.
  unfold rotateY_keys, rotation_world. cbn [host nodes].
  rewrite lookup_insert_eq. reflexivity.
Qed.

(** C1.  For a start time T0 and an angle interval in (0, 90],
    [set_rotation] ends without error; the end time it computes, which it
    stores as the playback maximum and as the time of the closing key,
    equals T0 - 1 + (360 - interval) / interval and lies strictly after
    T0. *)
Theorem set_rotation_end_time (w : world) (r : nat) (nd : node) :
  nodes (host w) !! r = Some nd ->
  0 < angle_interval (ui w) ->
  angle_interval (ui w) <= 90 ->
  exists w' t1 k rest,
    set_rotation r w = (inr tt, w') /\
    maxTime (options (host w')) = t1 /\
    rotateY_keys r w' = k :: rest /\ k_time k = t1 /\
    t1 == minTime (options (host w)) - 1
          + (360 - angle_interval (ui w)) / angle_interval (ui w) /\
    minTime (options (host w)) < t1.
Proof.
  intros Hr Hpos Hle.
  pose proof (end_time_of_after (minTime (options (host w))) _ Hpos Hle) as Hafter.
  exists (rotation_world r nd w),
         (end_time_of (minTime (options (host w))) (angle_interval (ui w))).
  do 2 eexists.
  split; [apply set_rotation_runs; [exact Hr | apply nonzero_Qeq_bool; lra]|].
  split; [reflexivity|].
  split; [rewrite rotateY_keys_rotation_world, rotation_keys_forward by lra;
          reflexivity|].
  split; [reflexivity|].
  split; [apply end_time_of_formula | lra].
Qed.

Lemma set_rotation_end_time_witness :
  exists w' t1 k rest,
    set_rotation 0 long_world = (inr tt, w') /\
    maxTime (options (host w')) = t1 /\
    rotateY_keys 0 w' = k :: rest /\ k_time k = t1 /\
    t1 == minTime (options (host long_world)) - 1
          + (360 - angle_interval (ui long_world))
            / angle_interval (ui long_world) /\
    minTime (options (host long_world)) < t1.
Proof.
  apply (set_rotation_end_time long_world 0 lone_group);
    [reflexivity | reflexivity | discriminate].
Defined.

(** C2, as the code has it.  With the playback starting at frame 1 and an
    angle interval in (0, 90], [set_rotation] ends without error and leaves
    an opening key of value 0 at frame 1 and a closing key at frame
    (360 - interval) / interval; the closing key's value minus the opening
    key's value is 360 - interval, one step short of a full turn.  With an
    interval of 0.75 the end time is 479 and the key there has
    rotateY = 359.25. *)
Theorem set_rotation_span_from_frame_one (w : world) (r : nat) (nd : node) :
  nodes (host w) !! r = Some nd ->
  0 < angle_interval (ui w) ->
  angle_interval (ui w) <= 90 ->
  minTime (options (host w)) == 1 ->
  exists w' k1 k0 rest,
    set_rotation r w = (inr tt, w') /\
    rotateY_keys r w' = k1 :: k0 :: rest /\
    k_time k0 = minTime (options (host w)) /\
    k_value k0 == 0 /\
    k_time k1 = maxTime (options (host w')) /\
    k_time k1 == (360 - angle_interval (ui w)) / angle_interval (ui w) /\
    k_value k1 - k_value k0 == 360 - angle_interval (ui w) /\
    (angle_interval (ui w) == 0.75 ->
     k_time k1 == 479 /\ k_value k1 == 359.25).
Proof.
  intros Hr Hpos Hle E0.
  pose proof (end_time_of_after (minTime (options (host w))) _ Hpos Hle) as Hafter.
  exists (rotation_world r nd w). do 3 eexists.
  split; [apply set_rotation_runs; [exact Hr | apply nonzero_Qeq_bool; lra]|].
  split; [rewrite rotateY_keys_rotation_world, rotation_keys_forward by lra;
          reflexivity|].
  cbn [k_time k_value rotation_world host options maxTime].
  split; [reflexivity|]. split; [reflexivity|]. split; [reflexivity|].
  split; [rewrite end_time_of_formula, E0; ring|].
  split.
  - rewrite end_value_formula by lra. rewrite E0. ring.
  - intros Ei. split.
    + rewrite end_time_of_formula, E0, Ei. reflexivity.
    + rewrite end_value_formula by lra. rewrite E0, Ei. reflexivity.
Qed.

Lemma set_rotation_span_from_frame_one_witness :
  exists w' k1 k0 rest,
    set_rotation 0 keyed_world = (inr tt, w') /\
    rotateY_keys 0 w' = k1 :: k0 :: rest /\
    k_time k0 = minTime (options (host keyed_world)) /\
    k_value k0 == 0 /\
    k_time k1 = maxTime (options (host w')) /\
    k_time k1
      == (360 - angle_interval (ui keyed_world))
         / angle_interval (ui keyed_world) /\
    k_value k1 - k_value k0 == 360 - angle_interval (ui keyed_world) /\
    (angle_interval (ui keyed_world) == 0.75 ->
     k_time k1 == 479 /\ k_value k1 == 359.25).
Proof.
  apply (set_rotation_span_from_frame_one keyed_world 0 keyed_group);
    [reflexivity | reflexivity | discriminate | reflexivity].
Defined.

(** With a start time of 1 and an angle interval of 0.75 the animation
    ends at frame 479, not 480, and spans 359.25 degrees, not 360. *)
Lemma set_rotation_full_turn_counterexample :
  let w' := snd (set_rotation 0 long_world) in
  fst (set_rotation 0 long_world) = inr tt /\
  minTime (options (host long_world)) == 1 /\
  angle_interval (ui long_world) == 0.75 /\
  exists k1 k0,
    rotateY_keys 0 w' = [k1; k0] /\
    k_time k0 == 1 /\ k_value k0 == 0 /\
    k_time k1 = maxTime (options (host w')) /\
    ~ k_time k1 == 480 /\
    ~ k_value k1 == 360 /\
    ~ k_value k1 - k_value k0 == 360.
Proof.
  cbv zeta. split; [reflexivity|]. split; [reflexivity|]. split; [reflexivity|].
  do 2 eexists. split; [vm_compute; reflexivity|].
  cbn [k_time k_value].
  repeat split; try reflexivity; intros H; vm_compute in H; discriminate H.
Qed.

(** Line 368 keys the closing value as the end time multiplied by the
    interval, against an opening value of 0 at the start time, so the
    angle turned grows with the start frame: started at frame 101 with an
    interval of 0.25 the closing key is at frame 1539 with value 384.75,
    more than a full turn. *)
Lemma set_rotation_from_frame_101 :
  minTime (options (host late_world)) == 101 /\
  angle_interval (ui late_world) == 0.25 /\
  fst (set_rotation 0 late_world) = inr tt /\
  exists k1 k0,
    rotateY_keys 0 (snd (set_rotation 0 late_world)) = [k1; k0] /\
    k_time k0 == 101 /\ k_value k0 == 0 /\
    k_time k1 == 1539 /\ k_value k1 == 384.75.
Proof.
  split; [reflexivity|]. split; [reflexivity|]. split; [reflexivity|].
  do 2 eexists. split; [vm_compute; reflexivity|].
  cbn [k_time k_value]. repeat split.
Qed.

(** C3, as the code has it.  Whatever the playback range was,
    [set_rotation] sets the playback maximum to the end time T1, also when
    that shortens it; what only grows is the animation end time, which
    becomes the larger of its previous value and T1.  The start of the
    range is left alone. *)
Theorem set_rotation_playback (w : world) (r : nat) (nd : node) :
  nodes (host w) !! r = Some nd ->
  ~ angle_interval (ui w) == 0 ->
  exists w',
    set_rotation r w = (inr tt, w') /\
    maxTime (options (host w'))
      = end_time_of (minTime (options (host w))) (angle_interval (ui w)) /\
    animationEndTime (options (host w'))
      == Qmax (animationEndTime (options (host w)))
              (maxTime (options (host w'))) /\
    animationEndTime (options (host w))
      <= animationEndTime (options (host w')) /\
    minTime (options (host w')) = minTime (options (host w)) /\
    animationStartTime (options (host w'))
      = animationStartTime (options (host w)).
Proof.
  intros Hr Hnz. exists (rotation_world r nd w).
  split; [apply set_rotation_runs; [exact Hr | now apply nonzero_Qeq_bool]|].
  cbn [rotation_world host options maxTime minTime animationEndTime
       animationStartTime].
  split; [reflexivity|].
  unfold Qlt_bool.
  destruct (Qle_bool _ _) eqn:E; cbn [negb].
  - apply Qle_bool_iff in E. rewrite Q.max_l by exact E.
    repeat split; try reflexivity. apply Qle_refl.
  - assert (H : animationEndTime (options (host w))
                < end_time_of (minTime (options (host w)))
                              (angle_interval (ui w))).
    { apply Qnot_le_lt. intros H. apply Qle_bool_iff in H. congruence. }
    rewrite Q.max_r by (apply Qlt_le_weak, H).
    repeat split; try reflexivity. apply Qlt_le_weak, H.
Qed.

Lemma set_rotation_playback_witness :
  exists w',
    set_rotation 0 long_world = (inr tt, w') /\
    maxTime (options (host w'))
      = end_time_of (minTime (options (host long_world)))
                    (angle_interval (ui long_world)) /\
    animationEndTime (options (host w'))
      == Qmax (animationEndTime (options (host long_world)))
              (maxTime (options (host w'))) /\
    animationEndTime (options (host long_world))
      <= animationEndTime (options (host w')) /\
    minTime (options (host w')) = minTime (options (host long_world)) /\
    animationStartTime (options (host w'))
      = animationStartTime (options (host long_world)).
Proof.
  apply (set_rotation_playback long_world 0 lone_group);
    [reflexivity | discriminate].
Defined.

(** A playback range that ended at frame 1000 ends at frame 479 after
    [set_rotation]: the range was shortened. *)
Lemma set_rotation_shortens_counterexample :
  let w' := snd (set_rotation 0 long_world) in
  let t1 := end_time_of (minTime (options (host long_world)))
                        (angle_interval (ui long_world)) in
  fst (set_rotation 0 long_world) = inr tt /\
  maxTime (options (host long_world)) == 1000 /\
  t1 == 479 /\
  maxTime (options (host w')) == 479 /\
  ~ maxTime (options (host w'))
    == Qmax (maxTime (options (host long_world))) t1.
Proof.
  cbv zeta. repeat split; try reflexivity.
  intros H. vm_compute in H. discriminate H.
Qed.

Lemma cut_keys_In t0 t1 ks k :
  In k (cut_keys t0 t1 ks)
  <-> In k ks /\ ~ (t0 <= k_time k /\ k_time k <= t1).
Proof.
  unfold cut_keys. rewrite filter_In, negb_true_iff.
  rewrite <- in_range_iff, not_true_iff_false. reflexivity.
Qed.

(** C4, as the code has it.  For a rotator holding the keys [ks], a
    start time T0 and the end time T1 of an angle interval in (0, 90], so
    that T0 < T1, [set_rotation] ends without error and leaves on the
    rotateY channel exactly: a key at T1 with value T1 * interval, a key
    at T0 with value 0, both with linear tangents, and the keys of [ks]
    outside [T0, T1], untouched; every key of [ks] within [T0, T1] is
    gone.  The keys of every other object are left alone. *)
Theorem set_rotation_keys (w : world) (r : nat) (nd : node) :
  nodes (host w) !! r = Some nd ->
  0 < angle_interval (ui w) ->
  angle_interval (ui w) <= 90 ->
  exists w' kept,
    set_rotation r w = (inr tt, w') /\
    rotateY_keys r w' =
      mkKey (maxTime (options (host w')))
            (maxTime (options (host w')) * angle_interval (ui w))
            Linear Linear
      :: mkKey (minTime (options (host w))) 0 Linear Linear
      :: kept /\
    (forall k, In k kept <->
       In k (n_rotateY nd) /\
       ~ (minTime (options (host w)) <= k_time k /\
          k_time k <= maxTime (options (host w')))) /\
    (forall o, o <> r -> rotateY_keys o w' = rotateY_keys o w).
Proof.
  intros Hr Hpos Hle.
  pose proof (end_time_of_after (minTime (options (host w))) _ Hpos Hle) as Hafter.
  exists (rotation_world r nd w). eexists.
  split; [apply set_rotation_runs; [exact Hr | apply nonzero_Qeq_bool; lra]|].
  split; [rewrite rotateY_keys_rotation_world, rotation_keys_forward by lra;
          reflexivity|].
  split; [intros k; apply cut_keys_In|].
  intros o Hne. unfold rotateY_keys, rotation_world. cbn [host nodes].
  rewrite lookup_insert_ne by congruence. reflexivity.
Qed.

Lemma set_rotation_keys_witness :
  (exists w' kept,
     set_rotation 0 keyed_world = (inr tt, w') /\
     rotateY_keys 0 w' =
       mkKey (maxTime (options (host w')))
             (maxTime (options (host w')) * angle_interval (ui keyed_world))
             Linear Linear
       :: mkKey (minTime (options (host keyed_world))) 0 Linear Linear
       :: kept /\
     (forall k, In k kept <->
        In k (n_rotateY keyed_group) /\
        ~ (minTime (options (host keyed_world)) <= k_time k /\
           k_time k <= maxTime (options (host w')))) /\
     (forall o, o <> 0%nat ->
        rotateY_keys o w' = rotateY_keys o keyed_world)) /\
  rotateY_keys 0 keyed_world
    = [mkKey 1 10 Flat Flat; mkKey 100 45 Spline Spline;
       mkKey 600 90 Flat Flat] /\
  cut_keys 1 479 (rotateY_keys 0 keyed_world) = [mkKey 600 90 Flat Flat].
Proof.
  split; [|split; reflexivity].
  apply (set_rotation_keys keyed_world 0 keyed_group);
    [reflexivity | reflexivity | discriminate].
Defined.

(** With an angle interval of 0, which the spin box admits, line 359
    raises before line 365 is reached: the keys the rotator held within
    the range stay, no key is set and no tangent is made linear. *)
Lemma set_rotation_keys_zero_interval_counterexample :
  angle_interval (ui keyed_zero_world) == 0 /\
  ds_value (rotation_widget (ui keyed_zero_world)) == 0 /\
  nodes (host keyed_zero_world) !! 0%nat = Some keyed_group /\
  set_rotation 0 keyed_zero_world = (inl ZeroDivisionError, keyed_zero_world) /\
  rotateY_keys 0 (snd (set_rotation 0 keyed_zero_world))
    = [mkKey 1 10 Flat Flat; mkKey 100 45 Spline Spline;
       mkKey 600 90 Flat Flat] /\
  (forall k, In k (rotateY_keys 0 (snd (set_rotation 0 keyed_zero_world))) ->
     k_in k <> Linear /\ k_out k <> Linear).
Proof.
  split; [reflexivity|]. split; [reflexivity|]. split; [reflexivity|].
  assert (E : set_rotation 0 keyed_zero_world
              = (inl ZeroDivisionError, keyed_zero_world)).
  { apply set_rotation_raises. reflexivity. }
  split; [exact E|]. rewrite E. cbn [snd].
  split; [reflexivity|].
  intros k Hk. change (rotateY_keys 0 keyed_zero_world) with
    [mkKey 1 10 Flat Flat; mkKey 100 45 Spline Spline;
     mkKey 600 90 Flat Flat] in Hk.
  cbn [In] in Hk.
  destruct Hk as [<-|[<-|[<-|[]]]]; split; discriminate.
Qed.

Lemma set_rotation_no_rotator (w : world) (o : nat) :
  nodes (host w) !! o = None ->
  Qeq_bool (angle_interval (ui w)) 0 = false ->
  fst (set_rotation o w) = inl HostError.
Proof.
  intros Ho Hz.
  unfold set_rotation, query_minTime, py_div, set_maxTime,
    query_animationEndTime, set_animationEndTime, cutKey, the_node,
    on_host, bind, get, ret, modify, raise.
  simpl. rewrite Hz. simpl.
  destruct (Qlt_bool _ _); simpl; rewrite Ho; reflexivity.
Qed.

(** C10.  The angle interval's spin box runs from -90 to 90 and accepts
    0; line 359 divides by the angle interval with no guard, so
    [set_rotation] raises a division by zero exactly when the angle
    interval is 0, whatever the scene, and the quotient is computed
    exactly when it is not. *)
Theorem division_needs_nonzero_interval :
  ds_minimum turntable_rotation_double_spin_box == -90 /\
  ds_maximum turntable_rotation_double_spin_box == 90 /\
  ds_value (ds_setValue 0 turntable_rotation_double_spin_box) == 0 /\
  (forall (a b : Q) (w : world),
     py_div a b w = (inr (a / b), w) <-> ~ b == 0) /\
  (forall (a b : Q) (w : world),
     py_div a b w = (inl ZeroDivisionError, w) <-> b == 0) /\
  (forall (w : world) (o : nat),
     fst (set_rotation o w) = inl ZeroDivisionError
     <-> angle_interval (ui w) == 0).
Proof.
  split; [reflexivity|]. split; [reflexivity|]. split; [reflexivity|].
  split; [|split].
  - intros a b w. unfold py_div, ret, raise.
    destruct (Qeq_bool b 0) eqn:E.
    + apply Qeq_bool_eq in E. split; [discriminate | tauto].
    + split; [|reflexivity]. intros _ H.
      apply Qeq_eq_bool in H. congruence.
  - intros a b w. unfold py_div, ret, raise.
    destruct (Qeq_bool b 0) eqn:E.
    + apply Qeq_bool_eq in E. tauto.
    + split; [discriminate|]. intros H. apply Qeq_eq_bool in H. congruence.
  - intros w o. destruct (Qeq_bool (angle_interval (ui w)) 0) eqn:E.
    + rewrite (set_rotation_raises w E o).
      apply Qeq_bool_eq in E. tauto.
    + assert (Hnz : ~ angle_interval (ui w) == 0).
      { intros H. apply Qeq_eq_bool in H. congruence. }
      split; [|tauto]. intros H. exfalso.
      destruct (nodes (host w) !! o) as [nd|] eqn:Ho.
      * rewrite (set_rotation_runs o w nd Ho E) in H. discriminate H.
      * rewrite (set_rotation_no_rotator w o Ho E) in H. discriminate H.
Qed.

(** ** Create *)

Section Create.

Variable w : world.

Let m := nodes (host w).
Let t := new_sphere m.
Let c := new_camera m.
Let g := new_group m.

Lemma new_sphere_fresh : m !! t = None.
Proof. apply not_elem_of_dom. apply (is_fresh (dom m)). Qed.

Lemma new_camera_fresh : m !! c = None /\ c <> t.
Proof.
  assert (H : c ∉ {[t]} ∪ dom m) by apply (is_fresh ({[t]} ∪ dom m)).
  split.
  - apply not_elem_of_dom. set_solver.
  - set_solver.
Qed.

Lemma new_group_fresh : m !! g = None /\ g <> t /\ g <> c.
Proof.
  assert (H : g ∉ {[c]} ∪ ({[t]} ∪ dom m))
    by apply (is_fresh ({[c]} ∪ ({[t]} ∪ dom m))).
  split; [|split].
  - apply not_elem_of_dom. set_solver.
  - set_solver.
  - set_solver.
Qed.

End Create.

Lemma create_runs (w : world) :
  Qeq_bool (ds_value (rotation_widget (ui w))) 0 = false ->
  create_button_on_clicked w = (inr tt, created_world w).
Proof.
  intros Hz.
  destruct (new_camera_fresh w) as [Hc Hct].
  destruct (new_group_fresh w) as [Hg [Hgt Hgc]].
  pose proof (new_sphere_fresh w) as Ht.
  cut (wp create_button_on_clicked w (fun _ w' => w' = created_world w)).
  { intros H. apply wp_run in H. destruct H as ([] & w' & -> & ->). reflexivity. }
  unfold create_button_on_clicked, update_setting_values, polySphere, camera,
    group_empty, parent, put_node, on_ui, on_host.
  set (m := nodes (host w)) in *.
  repeat wp_step.
  apply (wp_new_node_as (new_sphere m)); [reflexivity|]. wp_norm. fold m.
  repeat wp_step.
  apply (wp_new_node_as (new_camera m));
    [unfold new_camera; cbn [host nodes]; f_equal; rewrite !dom_insert_L;
     reflexivity|].
  wp_norm.
  repeat wp_step.
  apply (wp_new_node_as (new_group m));
    [unfold new_group; cbn [host nodes]; f_equal; rewrite !dom_insert_L;
     reflexivity|].
  wp_norm. repeat wp_step.
  eapply wp_the_node; [lookup_insert|]. repeat wp_step.
  eapply wp_the_node; [lookup_insert|]. repeat wp_step.
  eapply wp_the_node; [lookup_insert|]. repeat wp_step.
  eapply wp_the_node; [lookup_insert|]. repeat wp_step.
  eapply wp_of_run;
    [apply set_rotation_runs; [lookup_insert | exact Hz]|].
  repeat wp_step.
  unfold created_world, rotation_world, with_keys, group_node, camera_node,
    sphere_node. wp_norm. fold m.
  f_equal. f_equal.
  apply map_eq. intros o.
  destruct (decide (o = new_group m)) as [->|Hog]; [lookup_insert|].
  destruct (decide (o = new_camera m)) as [->|Hoc]; [lookup_insert|].
  destruct (decide (o = new_sphere m)) as [->|Hot]; lookup_insert.
Qed.

(** ** Apply *)

Lemma create_after_reading (w : world) :
  create_button_on_clicked (mkWorld (host w) (read_settings (ui w)))
  = create_button_on_clicked w.
Proof. reflexivity. Qed.

Lemma apply_falls_back (w : world) (c g : nat) :
  camera_field (ui w) = Some c ->
  group_field (ui w) = Some g ->
  nodes (host w) !! c = None \/ nodes (host w) !! g = None ->
  apply_button_on_clicked w = create_button_on_clicked w.
Proof.
  intros Hc Hg Hmiss.
  rewrite <- create_after_reading.
  unfold apply_button_on_clicked, update_setting_values, on_ui.
  unfold bind at 1. unfold modify. 
  unfold nameField_query at 1. unfold bind at 1 2. unfold get at 1. wp_norm.
  rewrite Hg. unfold ret at 1.
  unfold nameField_query at 1. unfold bind at 1 2. unfold get at 1. wp_norm.
  rewrite Hc. unfold ret at 1.
  unfold bind at 1. unfold get at 1.
  unfold objExists. wp_norm.
  destruct Hmiss as [H|H]; rewrite H; [reflexivity|].
  destruct (nodes (host w) !! c); reflexivity.
Qed.

Lemma setAttr_translateY_runs o v w nd :
  nodes (host w) !! o = Some nd ->
  setAttr_translateY o v w =
  (inr tt,
   mkWorld (with_nodes (host w)
              (<[o := mkNode (n_kind nd) (n_parent nd) (n_tx nd) v (n_tz nd)
                        (n_rotateY nd)]> (nodes (host w))))
           (ui w)).
Proof.
  intros H. unfold setAttr_translateY, the_node, put_node, on_host, bind, get,
    ret, modify. rewrite H. reflexivity.
Qed.

Lemma setAttr_translateZ_runs o v w nd :
  nodes (host w) !! o = Some nd ->
  setAttr_translateZ o v w =
  (inr tt,
   mkWorld (with_nodes (host w)
              (<[o := mkNode (n_kind nd) (n_parent nd) (n_tx nd) (n_ty nd) v
                        (n_rotateY nd)]> (nodes (host w))))
           (ui w)).
Proof.
  intros H. unfold setAttr_translateZ, the_node, put_node, on_host, bind, get,
    ret, modify. rewrite H. reflexivity.
Qed.

Lemma apply_moves (w : world) (c g : nat) (cn gn : node) :
  camera_field (ui w) = Some c ->
  group_field (ui w) = Some g ->
  nodes (host w) !! c = Some cn ->
  nodes (host w) !! g = Some gn ->
  apply_button_on_clicked w = set_rotation g (moved_world c cn w).
Proof.
  intros Hcf Hgf Hc Hg.
  unfold apply_button_on_clicked, update_setting_values, on_ui.
  unfold bind at 1. unfold modify.
  unfold nameField_query at 1. unfold bind at 1 2. unfold get at 1. wp_norm.
  rewrite Hgf. unfold ret at 1.
  unfold nameField_query at 1. unfold bind at 1 2. unfold get at 1. wp_norm.
  rewrite Hcf. unfold ret at 1.
  unfold bind at 1. unfold get at 1.
  unfold objExists. wp_norm. rewrite Hc, Hg. cbn [andb].
  match goal with
  | |- bind (setAttr_translateY _ ?v) ?k ?w0 = _ =>
      rewrite (bind_runs _ k w0 _ _ (setAttr_translateY_runs c v w0 cn Hc))
  end.
  wp_norm.
  match goal with
  | |- bind (setAttr_translateZ _ ?v) ?k ?w0 = _ =>
      rewrite (bind_runs _ k w0 _ _
                 (setAttr_translateZ_runs c v w0 _ (lookup_insert_eq _ _ _)))
  end.
  unfold moved_world. wp_norm. rewrite insert_insert_eq, ?Hcf, ?Hgf.
  reflexivity.
Qed.

Lemma apply_updates (w : world) (c g : nat) (cn gn : node) :
  camera_field (ui w) = Some c ->
  group_field (ui w) = Some g ->
  nodes (host w) !! c = Some cn ->
  nodes (host w) !! g = Some gn ->
  c <> g ->
  Qeq_bool (ds_value (rotation_widget (ui w))) 0 = false ->
  apply_button_on_clicked w = (inr tt, applied_world c g cn gn w).
Proof.
  intros Hcf Hgf Hc Hg Hne Hz.
  rewrite (apply_moves w c g cn gn Hcf Hgf Hc Hg).
  apply set_rotation_runs; [|exact Hz].
  unfold moved_world. lookup_insert.
Qed.

Section Again.

Variables (o : nat) (d : tangent) (t0 t1 v : Q) (ks : list key).

Let rest : list key :=
  List.filter (fun k' => negb (Qeq_bool (k_time k') t1))
    (List.filter (fun k' => negb (Qeq_bool (k_time k') t0))
       (cut_keys t0 t1 ks)).

Lemma rest_spec k :
  In k rest ->
  Qeq_bool (k_time k) t1 = false /\ Qeq_bool (k_time k) t0 = false /\
  in_range t0 t1 (k_time k) = false.
Proof.
  unfold rest. rewrite !filter_In, !negb_true_iff.
  intros [[Hk H0] H1]. apply cut_keys_outside in Hk. tauto.
Qed.

Lemma rest_fixed :
  List.filter (fun k' => negb (Qeq_bool (k_time k') t1))
    (List.filter (fun k' => negb (Qeq_bool (k_time k') t0))
       (cut_keys t0 t1 rest)) = rest.
Proof.
  assert (H : cut_keys t0 t1 rest = rest).
  { apply filter_all. intros k Hk. apply rest_spec in Hk.
    apply negb_true_iff. tauto. }
  rewrite H.
  rewrite (filter_all (fun k' => negb (Qeq_bool (k_time k') t0)) rest)
    by (intros k Hk; apply rest_spec in Hk; apply negb_true_iff; tauto).
  apply filter_all. intros k Hk. apply rest_spec in Hk.
  apply negb_true_iff. tauto.
Qed.

(** With the end on the start, the closing key replaces the opening
    one. *)
Lemma rotation_keys_instant :
  t0 == t1 ->
  rotation_keys o d t0 t1 v ks = mkKey t1 v Linear Linear :: rest.
Proof.
  intros E.
  assert (E01 : Qeq_bool t0 t1 = true) by (apply Qeq_eq_bool; exact E).
  assert (Hin1 : in_range t0 t1 t1 = true) by (apply in_range_iff; lra).
  unfold rotation_keys, keys_in_range, keyed_range, set_key.
  cbn [k_time List.filter]. rewrite E01. cbn [negb].
  fold rest. cbn [List.filter k_time]. rewrite Hin1.
  rewrite (filter_none _ rest)
    by (intros k Hk; apply rest_spec in Hk; tauto).
  unfold retangent. cbn [List.map is_selected existsb fst snd k_time k_value].
  rewrite Nat.eqb_refl, Qeq_bool_refl. cbn [andb orb]. f_equal.
  rewrite <- (map_id rest) at 2.
  apply map_ext_in. intros k Hk. apply rest_spec in Hk.
  destruct Hk as [H1 _].
  assert (H1' : Qeq_bool t1 (k_time k) = false).
  { apply Qeq_bool_false. intros H. apply Qeq_eq_bool in H.
    apply Qeq_bool_eq in H. symmetry in H. apply Qeq_eq_bool in H.
    congruence. }
  rewrite H1'. reflexivity.
Qed.

(** Running lines 365-368 on the curve that lines 365-371 left gives
    the keys they gave the first time. *)
Lemma keyed_range_again :
  keyed_range d t0 t1 v (rotation_keys o d t0 t1 v ks)
  = keyed_range d t0 t1 v ks.
Proof.
  destruct (Q_dec t0 t1) as [[Hlt|Hgt]|E].
  - rewrite rotation_keys_forward by exact Hlt.
    unfold keyed_range. f_equal. f_equal.
    unfold cut_keys at 1. cbn [app List.filter k_time].
    assert (Hin1 : in_range t0 t1 t1 = true) by (apply in_range_iff; lra).
    assert (Hin0 : in_range t0 t1 t0 = true) by (apply in_range_iff; lra).
    rewrite Hin1, Hin0. cbn [negb]. apply cut_keys_idem.
  - rewrite rotation_keys_backward by exact Hgt.
    unfold keyed_range. rewrite !cut_keys_empty_range by exact Hgt.
    unfold set_key. cbn [k_time List.filter].
    assert (E10 : Qeq_bool t1 t0 = false) by (apply Qeq_bool_false; lra).
    assert (E01 : Qeq_bool t0 t1 = false) by (apply Qeq_bool_false; lra).
    repeat (rewrite ?E10, ?E01, ?Qeq_bool_refl;
            cbn [negb List.filter k_time]).
    do 2 f_equal.
    set (F := List.filter _ (List.filter _ ks)).
    assert (HF : forall k, In k F ->
              negb (Qeq_bool (k_time k) t1) = true /\
              negb (Qeq_bool (k_time k) t0) = true).
    { intros k Hk. unfold F in Hk. apply filter_In in Hk.
      destruct Hk as [Hk H1]. apply filter_In in Hk. tauto. }
    rewrite (filter_all (fun k' => negb (Qeq_bool (k_time k') t0)) F)
      by (intros k Hk; apply (HF k Hk)).
    apply filter_all. intros k Hk. apply (HF k Hk).
  - rewrite rotation_keys_instant by exact E.
    assert (E01 : Qeq_bool t0 t1 = true) by (apply Qeq_eq_bool; exact E).
    assert (Hin1 : in_range t0 t1 t1 = true) by (apply in_range_iff; lra).
    unfold keyed_range, set_key. cbn [k_time List.filter].
    rewrite E01. cbn [negb]. f_equal.
    unfold cut_keys at 1. cbn [List.filter k_time]. rewrite Hin1.
    cbn [negb]. fold (cut_keys t0 t1 rest). rewrite rest_fixed.
    reflexivity.
Qed.

Lemma rotation_keys_again :
  rotation_keys o d t0 t1 v (rotation_keys o d t0 t1 v ks)
  = rotation_keys o d t0 t1 v ks.
Proof.
  unfold rotation_keys at 1. rewrite keyed_range_again. reflexivity.
Qed.

End Again.

Lemma animation_end_again (a t : Q) :
  (if Qlt_bool (if Qlt_bool a t then t else a) t
   then t else (if Qlt_bool a t then t else a))
  = (if Qlt_bool a t then t else a).
Proof.
  destruct (Qlt_bool a t) eqn:E; [|rewrite E; reflexivity].
  unfold Qlt_bool. rewrite (proj2 (Qle_bool_iff t t)) by apply Qle_refl.
  reflexivity.
Qed.

Lemma apply_after_create (w : world) :
  Qeq_bool (ds_value (rotation_widget (ui w))) 0 = false ->
  apply_button_on_clicked (created_world w) = (inr tt, created_world w).
Proof.
  intros Hnz.
  destruct (new_camera_fresh w) as [Hc Hct].
  destruct (new_group_fresh w) as [Hg [Hgt Hgc]].
  set (m := nodes (host w)) in *.
  rewrite (apply_updates (created_world w) (new_camera m) (new_group m)
             (camera_node (Some (new_group m))
                (sb_value (spin (camera_height_widgets (ui w))))
                (sb_value (spin (camera_distance_widgets (ui w)))))
             (group_node (Some (new_sphere m))
                (rotation_keys (new_group m) (default_tangent (host w))
                   (minTime (options (host w)))
                   (end_time_of (minTime (options (host w)))
                      (ds_value (rotation_widget (ui w))))
                   (end_time_of (minTime (options (host w)))
                      (ds_value (rotation_widget (ui w)))
                    * ds_value (rotation_widget (ui w))) []))).
  - f_equal.
    unfold applied_world, moved_world, rotation_world, created_world,
      read_settings, with_keys, group_node, camera_node.
    wp_norm. fold m.
    rewrite keyed_range_again, rotation_keys_again, animation_end_again.
    f_equal. f_equal.
    apply map_eq. intros o.
    destruct (decide (o = new_group m)) as [->|Hog]; [lookup_insert|].
    destruct (decide (o = new_camera m)) as [->|Hoc]; [lookup_insert|].
    destruct (decide (o = new_sphere m)) as [->|Hot]; lookup_insert.
  - reflexivity.
  - reflexivity.
  - unfold created_world. cbn [host nodes]. fold m. lookup_insert.
  - unfold created_world. cbn [host nodes]. fold m. lookup_insert.
  - congruence.
  - exact Hnz.
Qed.

Lemma create_stalls (w : world) :
  Qeq_bool (ds_value (rotation_widget (ui w))) 0 = true ->
  create_button_on_clicked w = (inl ZeroDivisionError, stalled_world w).
Proof.
  intros Hz.
  destruct (new_camera_fresh w) as [Hc Hct].
  destruct (new_group_fresh w) as [Hg [Hgt Hgc]].
  pose proof (new_sphere_fresh w) as Ht.
  apply ends_run.
  unfold create_button_on_clicked, update_setting_values, polySphere, camera,
    group_empty, parent, put_node, on_ui, on_host.
  set (m := nodes (host w)) in *.
  repeat wp_step.
  apply (wp_new_node_as (new_sphere m)); [reflexivity|]. wp_norm. fold m.
  repeat wp_step.
  apply (wp_new_node_as (new_camera m));
    [unfold new_camera; cbn [host nodes]; f_equal; rewrite !dom_insert_L;
     reflexivity|].
  wp_norm.
  repeat wp_step.
  apply (wp_new_node_as (new_group m));
    [unfold new_group; cbn [host nodes]; f_equal; rewrite !dom_insert_L;
     reflexivity|].
  wp_norm. repeat wp_step.
  eapply wp_the_node; [lookup_insert|]. repeat wp_step.
  eapply wp_the_node; [lookup_insert|]. repeat wp_step.
  eapply wp_the_node; [lookup_insert|]. repeat wp_step.
  eapply wp_the_node; [lookup_insert|]. repeat wp_step.
  eapply ends_raised; [apply set_rotation_raises; exact Hz|].
  split; [reflexivity|].
  unfold stalled_world, group_node, camera_node, sphere_node. wp_norm. fold m.
  f_equal. f_equal.
  apply map_eq. intros o.
  destruct (decide (o = new_group m)) as [->|Hog]; [lookup_insert|].
  destruct (decide (o = new_camera m)) as [->|Hoc]; [lookup_insert|].
  destruct (decide (o = new_sphere m)) as [->|Hot]; lookup_insert.
Qed.

Lemma apply_after_stall (w : world) :
  Qeq_bool (ds_value (rotation_widget (ui w))) 0 = true ->
  apply_button_on_clicked (stalled_world w)
  = (inl ZeroDivisionError, stalled_world w).
Proof.
  intros Hz.
  destruct (new_camera_fresh w) as [Hc Hct].
  destruct (new_group_fresh w) as [Hg [Hgt Hgc]].
  set (m := nodes (host w)) in *.
  rewrite (apply_moves (stalled_world w) (new_camera m) (new_group m)
             (camera_node (Some (new_group m))
                (sb_value (spin (camera_height_widgets (ui w))))
                (sb_value (spin (camera_distance_widgets (ui w)))))
             (group_node (Some (new_sphere m)) [])).
  - rewrite set_rotation_raises by exact Hz. f_equal.
    unfold moved_world, stalled_world, camera_node. wp_norm. fold m.
    f_equal. f_equal.
    apply map_eq. intros o.
    destruct (decide (o = new_group m)) as [->|Hog]; [lookup_insert|].
    destruct (decide (o = new_camera m)) as [->|Hoc]; [lookup_insert|].
    destruct (decide (o = new_sphere m)) as [->|Hot]; lookup_insert.
  - reflexivity.
  - reflexivity.
  - unfold stalled_world. cbn [host nodes]. fold m. lookup_insert.
  - unfold stalled_world. cbn [host nodes]. fold m. lookup_insert.
Qed.

(** ** The claims on Create and Apply *)

Lemma created_world_old_nodes (w : world) o nd :
  nodes (host w) !! o = Some nd ->
  nodes (host (created_world w)) !! o = Some nd.
Proof.
  intros Ho.
  destruct (new_camera_fresh w) as [Hc Hct].
  destruct (new_group_fresh w) as [Hg [Hgt Hgc]].
  pose proof (new_sphere_fresh w) as Ht.
  unfold created_world. cbn [host nodes].
  rewrite !lookup_insert_ne by congruence. exact Ho.
Qed.

(** C6, as the code has it.  For every scene and every settings typed in
    the panel with an angle interval other than zero, Create ends without
    error and leaves three new objects: a sphere at the origin, a camera
    at (0, camera_height, camera_distance) and a group; the camera's
    parent is the group and the group's parent is the sphere; the group's
    rotateY channel holds the rotation animation; Apply is enabled; the
    three references and the three settings are recorded; and what was
    in the scene is still there. *)
Theorem create_builds_rig (w : world) :
  ~ ds_value (rotation_widget (ui w)) == 0 ->
  exists w' t c g,
    create_button_on_clicked w = (inr tt, w') /\
    (nodes (host w) !! t = None /\ nodes (host w) !! c = None /\
     nodes (host w) !! g = None /\ t <> c /\ t <> g /\ c <> g) /\
    (kind_of t w' = Some Sphere /\ translate_of t w' = Some (0, 0, 0) /\
     parent_of t w' = Some None) /\
    (kind_of c w' = Some Camera /\
     translate_of c w'
       = Some (0, inject_Z (sb_value (spin (camera_height_widgets (ui w)))),
                  inject_Z (sb_value (spin (camera_distance_widgets (ui w))))) /\
     parent_of c w' = Some (Some g)) /\
    (kind_of g w' = Some Group /\ translate_of g w' = Some (0, 0, 0) /\
     parent_of g w' = Some (Some t)) /\
    rotateY_keys g w'
      = rotation_keys g (default_tangent (host w)) (minTime (options (host w)))
          (maxTime (options (host w')))
          (maxTime (options (host w')) * ds_value (rotation_widget (ui w))) [] /\
    maxTime (options (host w'))
      = end_time_of (minTime (options (host w)))
                    (ds_value (rotation_widget (ui w))) /\
    (0 < ds_value (rotation_widget (ui w)) ->
     ds_value (rotation_widget (ui w)) <= 90 ->
     rotateY_keys g w'
       = [mkKey (maxTime (options (host w')))
                (maxTime (options (host w')) * ds_value (rotation_widget (ui w)))
                Linear Linear;
          mkKey (minTime (options (host w))) 0 Linear Linear]) /\
    apply_enabled (ui w') = true /\
    (turntable_field (ui w') = Some t /\ camera_field (ui w') = Some c /\
     group_field (ui w') = Some g) /\
    (camera_distance (ui w') = sb_value (spin (camera_distance_widgets (ui w))) /\
     camera_height (ui w') = sb_value (spin (camera_height_widgets (ui w))) /\
     angle_interval (ui w') = ds_value (rotation_widget (ui w))) /\
    (forall o nd, nodes (host w) !! o = Some nd ->
                  nodes (host w') !! o = Some nd).
Proof.
  intros Hnz.
  destruct (new_camera_fresh w) as [Hc Hct].
  destruct (new_group_fresh w) as [Hg [Hgt Hgc]].
  pose proof (new_sphere_fresh w) as Ht.
  exists (created_world w), (new_sphere (nodes (host w))),
         (new_camera (nodes (host w))), (new_group (nodes (host w))).
  split; [apply create_runs; now apply nonzero_Qeq_bool|].
  split; [repeat split; try assumption; congruence|].
  assert (Ks : rotateY_keys (new_group (nodes (host w))) (created_world w)
               = rotation_keys (new_group (nodes (host w)))
                   (default_tangent (host w)) (minTime (options (host w)))
                   (end_time_of (minTime (options (host w)))
                      (ds_value (rotation_widget (ui w))))
                   (end_time_of (minTime (options (host w)))
                      (ds_value (rotation_widget (ui w)))
                    * ds_value (rotation_widget (ui w))) []).
  { unfold rotateY_keys, created_world. cbn [host nodes].
    rewrite lookup_insert_eq. reflexivity. }
  unfold kind_of, translate_of, parent_of.
  split; [|split; [|split; [|split; [|split; [|split]]]]].
  - unfold created_world. cbn [host nodes].
    rewrite !lookup_insert_ne by congruence. rewrite lookup_insert_eq.
    repeat split.
  - unfold created_world. cbn [host nodes].
    rewrite lookup_insert_ne by congruence. rewrite lookup_insert_eq.
    repeat split.
  - unfold created_world. cbn [host nodes]. rewrite lookup_insert_eq.
    repeat split.
  - exact Ks.
  - reflexivity.
  - intros Hpos Hle. rewrite Ks.
    pose proof (end_time_of_after (minTime (options (host w))) _ Hpos Hle).
    rewrite rotation_keys_forward by lra. reflexivity.
  - split; [reflexivity|]. split; [repeat split|]. split; [repeat split|].
    intros o nd. apply created_world_old_nodes.
Qed.

Lemma create_builds_rig_witness :
  exists w' t c g,
    create_button_on_clicked new_world = (inr tt, w') /\
    (nodes (host new_world) !! t = None /\ nodes (host new_world) !! c = None /\
     nodes (host new_world) !! g = None /\ t <> c /\ t <> g /\ c <> g) /\
    (kind_of t w' = Some Sphere /\ translate_of t w' = Some (0, 0, 0) /\
     parent_of t w' = Some None) /\
    (kind_of c w' = Some Camera /\
     translate_of c w'
       = Some (0, inject_Z (sb_value (spin (camera_height_widgets (ui new_world)))),
                  inject_Z (sb_value (spin (camera_distance_widgets (ui new_world))))) /\
     parent_of c w' = Some (Some g)) /\
    (kind_of g w' = Some Group /\ translate_of g w' = Some (0, 0, 0) /\
     parent_of g w' = Some (Some t)) /\
    rotateY_keys g w'
      = rotation_keys g (default_tangent (host new_world))
          (minTime (options (host new_world)))
          (maxTime (options (host w')))
          (maxTime (options (host w'))
           * ds_value (rotation_widget (ui new_world))) [] /\
    maxTime (options (host w'))
      = end_time_of (minTime (options (host new_world)))
                    (ds_value (rotation_widget (ui new_world))) /\
    (0 < ds_value (rotation_widget (ui new_world)) ->
     ds_value (rotation_widget (ui new_world)) <= 90 ->
     rotateY_keys g w'
       = [mkKey (maxTime (options (host w')))
                (maxTime (options (host w'))
                 * ds_value (rotation_widget (ui new_world)))
                Linear Linear;
          mkKey (minTime (options (host new_world))) 0 Linear Linear]) /\
    apply_enabled (ui w') = true /\
    (turntable_field (ui w') = Some t /\ camera_field (ui w') = Some c /\
     group_field (ui w') = Some g) /\
    (camera_distance (ui w')
       = sb_value (spin (camera_distance_widgets (ui new_world))) /\
     camera_height (ui w')
       = sb_value (spin (camera_height_widgets (ui new_world))) /\
     angle_interval (ui w') = ds_value (rotation_widget (ui new_world))) /\
    (forall o nd, nodes (host new_world) !! o = Some nd ->
                  nodes (host w') !! o = Some nd).
Proof.
  apply (create_builds_rig new_world). discriminate.
Defined.

(** With 0 typed as the angle interval, Create stops on a division by
    zero: the group it made has no key and Apply is not enabled. *)
Lemma create_zero_interval_counterexample :
  let w' := snd (create_button_on_clicked zero_world) in
  ds_value (rotation_widget (ui zero_world)) == 0 /\
  fst (create_button_on_clicked zero_world) = inl ZeroDivisionError /\
  group_field (ui w') = Some 2%nat /\
  kind_of 2 w' = Some Group /\
  rotateY_keys 2 w' = [] /\
  apply_enabled (ui w') = false.
Proof. cbv zeta. repeat split; vm_compute; reflexivity. Qed.

(** C5, as the code has it.  Let the camera and the group recorded by the
    last Create be [c] and [g], and let the angle interval typed in the
    panel be other than zero.  If [c] or [g] is no longer in the scene,
    Apply does exactly what Create does, ends without error and records
    a camera and a group that were not in the scene before and now are.
    If both are still there, Apply ends without error, sets the camera's
    translateY and translateZ to the height and the distance of the panel,
    leaves its translateX, kind and parent as they were, runs
    [set_rotation] on the group, and keeps the recorded references and
    every other object. *)
Theorem apply_falls_back_or_updates (w : world) (c g : nat) :
  camera_field (ui w) = Some c ->
  group_field (ui w) = Some g ->
  c <> g ->
  ~ ds_value (rotation_widget (ui w)) == 0 ->
  (nodes (host w) !! c = None \/ nodes (host w) !! g = None ->
   apply_button_on_clicked w = create_button_on_clicked w /\
   exists w' c' g',
     apply_button_on_clicked w = (inr tt, w') /\
     camera_field (ui w') = Some c' /\ group_field (ui w') = Some g' /\
     nodes (host w) !! c' = None /\ nodes (host w) !! g' = None /\
     kind_of c' w' = Some Camera /\ kind_of g' w' = Some Group) /\
  (forall cn gn,
     nodes (host w) !! c = Some cn ->
     nodes (host w) !! g = Some gn ->
     exists w',
       apply_button_on_clicked w = (inr tt, w') /\
       translate_of c w'
         = Some (n_tx cn,
                 inject_Z (sb_value (spin (camera_height_widgets (ui w)))),
                 inject_Z (sb_value (spin (camera_distance_widgets (ui w))))) /\
       kind_of c w' = Some (n_kind cn) /\
       parent_of c w' = Some (n_parent cn) /\
       set_rotation g (moved_world c cn w) = (inr tt, w') /\
       rotateY_keys g w'
         = rotation_keys g (default_tangent (host w))
             (minTime (options (host w))) (maxTime (options (host w')))
             (maxTime (options (host w'))
              * ds_value (rotation_widget (ui w)))
             (n_rotateY gn) /\
       camera_field (ui w') = Some c /\ group_field (ui w') = Some g /\
       (forall o, o <> c -> o <> g ->
                  nodes (host w') !! o = nodes (host w) !! o)).
Proof.
  intros Hcf Hgf Hne Hnz.
  pose proof (nonzero_Qeq_bool _ Hnz) as Hz.
  split.
  - intros Hmiss.
    split; [apply (apply_falls_back w c g Hcf Hgf Hmiss)|].
    destruct (new_camera_fresh w) as [Hc _].
    destruct (new_group_fresh w) as [Hg [_ Hgc]].
    exists (created_world w), (new_camera (nodes (host w))),
           (new_group (nodes (host w))).
    split; [rewrite (apply_falls_back w c g Hcf Hgf Hmiss);
            apply create_runs; exact Hz|].
    split; [reflexivity|]. split; [reflexivity|].
    split; [exact Hc|]. split; [exact Hg|].
    unfold kind_of, created_world. cbn [host nodes].
    rewrite lookup_insert_ne by congruence. rewrite !lookup_insert_eq.
    split; reflexivity.
  - intros cn gn Hc Hg.
    assert (Hg' : nodes (host (moved_world c cn w)) !! g = Some gn)
      by (unfold moved_world; lookup_insert).
    exists (applied_world c g cn gn w).
    split; [apply apply_updates; assumption|].
    unfold applied_world.
    unfold translate_of, kind_of, parent_of.
    replace (nodes (host (rotation_world g gn (moved_world c cn w))) !! c)
      with (nodes (host (moved_world c cn w)) !! c)
      by (unfold rotation_world; cbn [host nodes];
          now rewrite lookup_insert_ne by congruence).
    unfold moved_world at 1 2 3. cbn [host nodes]. rewrite lookup_insert_eq.
    cbn [n_tx n_ty n_tz n_kind n_parent].
    split; [reflexivity|]. split; [reflexivity|]. split; [reflexivity|].
    split; [apply set_rotation_runs; [exact Hg' | exact Hz]|].
    split; [apply rotateY_keys_rotation_world|].
    unfold rotation_world, moved_world, read_settings. cbn [ui host nodes
      camera_field group_field].
    split; [exact Hcf|]. split; [exact Hgf|].
    intros o Hoc Hog. now rewrite !lookup_insert_ne by congruence.
Qed.

Lemma apply_falls_back_or_updates_witness :
  apply_button_on_clicked orphaned_world
  = create_button_on_clicked orphaned_world /\
  exists w' c' g',
    apply_button_on_clicked orphaned_world = (inr tt, w') /\
    camera_field (ui w') = Some c' /\ group_field (ui w') = Some g' /\
    nodes (host orphaned_world) !! c' = None /\
    nodes (host orphaned_world) !! g' = None /\
    kind_of c' w' = Some Camera /\ kind_of g' w' = Some Group.
Proof.
  apply (proj1 (apply_falls_back_or_updates orphaned_world 1 2
                  eq_refl eq_refl ltac:(discriminate) ltac:(discriminate))).
  left. reflexivity.
Defined.

(** With 0 typed as the angle interval and the camera of the last rig
    removed, Apply raises a division by zero. *)
Lemma apply_zero_interval_counterexample :
  camera_field (ui orphaned_zero_world) = Some 1%nat /\
  group_field (ui orphaned_zero_world) = Some 2%nat /\
  nodes (host orphaned_zero_world) !! 1%nat = None /\
  ds_value (rotation_widget (ui orphaned_zero_world)) == 0 /\
  fst (apply_button_on_clicked orphaned_zero_world) = inl ZeroDivisionError.
Proof. repeat split; vm_compute; reflexivity. Qed.

(** C7.  For every scene and every settings typed in the panel, Apply
    clicked right after Create, with the panel untouched, leaves the world
    that Create left: the camera stands where it stood, at
    (0, camera_height, camera_distance), and the group's rotateY channel
    holds the same keys, with the same times, values and tangents.  When
    the angle interval is not zero both handlers end without error. *)
Theorem apply_after_create_changes_nothing (w : world) :
  exists c g,
    camera_field (ui (snd (create_button_on_clicked w))) = Some c /\
    group_field (ui (snd (create_button_on_clicked w))) = Some g /\
    translate_of c (snd (create_button_on_clicked w))
      = Some (0, inject_Z (sb_value (spin (camera_height_widgets (ui w)))),
                 inject_Z (sb_value (spin (camera_distance_widgets (ui w))))) /\
    translate_of c
        (snd (apply_button_on_clicked (snd (create_button_on_clicked w))))
      = translate_of c (snd (create_button_on_clicked w)) /\
    rotateY_keys g
        (snd (apply_button_on_clicked (snd (create_button_on_clicked w))))
      = rotateY_keys g (snd (create_button_on_clicked w)) /\
    snd (apply_button_on_clicked (snd (create_button_on_clicked w)))
      = snd (create_button_on_clicked w) /\
    (~ ds_value (rotation_widget (ui w)) == 0 ->
     fst (create_button_on_clicked w) = inr tt /\
     fst (apply_button_on_clicked (snd (create_button_on_clicked w))) = inr tt) /\
    (0 < ds_value (rotation_widget (ui w)) ->
     ds_value (rotation_widget (ui w)) <= 90 ->
     rotateY_keys g (snd (create_button_on_clicked w))
     = [mkKey (end_time_of (minTime (options (host w)))
                 (ds_value (rotation_widget (ui w))))
              (end_time_of (minTime (options (host w)))
                 (ds_value (rotation_widget (ui w)))
               * ds_value (rotation_widget (ui w)))
              Linear Linear;
        mkKey (minTime (options (host w))) 0 Linear Linear]).
Proof.
  destruct (new_camera_fresh w) as [Hc Hct].
  destruct (new_group_fresh w) as [Hg [Hgt Hgc]].
  exists (new_camera (nodes (host w))), (new_group (nodes (host w))).
  destruct (Qeq_bool (ds_value (rotation_widget (ui w))) 0) eqn:Hz.
  - rewrite (create_stalls w Hz). cbn [snd fst].
    rewrite (apply_after_stall w Hz). cbn [snd].
    split; [reflexivity|]. split; [reflexivity|].
    split.
    { unfold translate_of, stalled_world. cbn [host nodes].
      rewrite lookup_insert_ne by congruence. rewrite lookup_insert_eq.
      reflexivity. }
    split; [reflexivity|]. split; [reflexivity|]. split; [reflexivity|].
    split.
    + intros Hnz. exfalso. apply Hnz. apply Qeq_bool_eq. exact Hz.
    + intros Hpos _. apply Qeq_bool_eq in Hz. lra.
  - rewrite (create_runs w Hz). cbn [snd fst].
    rewrite (apply_after_create w Hz). cbn [snd fst].
    split; [reflexivity|]. split; [reflexivity|].
    split.
    { unfold translate_of, created_world. cbn [host nodes].
      rewrite lookup_insert_ne by congruence. rewrite lookup_insert_eq.
      reflexivity. }
    split; [reflexivity|]. split; [reflexivity|]. split; [reflexivity|].
    split; [intros _; split; reflexivity|].
    intros Hpos Hle.
    pose proof (end_time_of_after (minTime (options (host w))) _ Hpos Hle).
    unfold rotateY_keys, created_world. cbn [host nodes].
    rewrite lookup_insert_eq. cbn [group_node n_rotateY].
    rewrite rotation_keys_forward by lra. reflexivity.
Qed.

(** ** More on Create, Apply and the rotation *)

Lemma rotateY_keys_moved_world c cn w o :
  nodes (host w) !! c = Some cn ->
  rotateY_keys o (moved_world c cn w) = rotateY_keys o w.
Proof.
  intros Hc. unfold rotateY_keys, moved_world. cbn [host nodes].
  destruct (decide (o = c)) as [->|Hne].
  - rewrite lookup_insert_eq, Hc. reflexivity.
  - rewrite lookup_insert_ne by congruence. reflexivity.
Qed.

(** X6.  Apply with 0 typed as the angle interval, on a rig whose camera
    and group are still in the scene: the settings are read and the camera
    is moved to the panel's height and distance, then line 359 raises a
    division by zero; no key, no playback option and no other object is
    touched. *)
Theorem apply_zero_interval_moves_camera (w : world) (c g : nat) (cn gn : node) :
  camera_field (ui w) = Some c ->
  group_field (ui w) = Some g ->
  nodes (host w) !! c = Some cn ->
  nodes (host w) !! g = Some gn ->
  ds_value (rotation_widget (ui w)) == 0 ->
  exists w',
    apply_button_on_clicked w = (inl ZeroDivisionError, w') /\
    translate_of c w'
      = Some (n_tx cn,
              inject_Z (sb_value (spin (camera_height_widgets (ui w)))),
              inject_Z (sb_value (spin (camera_distance_widgets (ui w))))) /\
    options (host w') = options (host w) /\
    (forall o, rotateY_keys o w' = rotateY_keys o w) /\
    (forall o, o <> c -> nodes (host w') !! o = nodes (host w) !! o).
Proof.
  intros Hcf Hgf Hc Hg Hz. apply Qeq_eq_bool in Hz.
  exists (moved_world c cn w).
  split.
  { rewrite (apply_moves w c g cn gn Hcf Hgf Hc Hg).
    apply set_rotation_raises. exact Hz. }
  split.
  { unfold translate_of, moved_world. cbn [host nodes].
    rewrite lookup_insert_eq. reflexivity. }
  split; [reflexivity|].
  split; [intros o; apply rotateY_keys_moved_world; exact Hc|].
  intros o Hne. unfold moved_world. cbn [host nodes].
  now rewrite lookup_insert_ne by congruence.
Qed.

Lemma apply_zero_interval_moves_camera_witness :
  exists w',
    apply_button_on_clicked
      (type_angle 0 (snd (create_button_on_clicked new_world)))
    = (inl ZeroDivisionError, w') /\
    translate_of 1 w' = Some (0, inject_Z 2, inject_Z 5).
Proof.
  destruct (apply_zero_interval_moves_camera
              (type_angle 0 (snd (create_button_on_clicked new_world)))
              1 2 (camera_node (Some 2%nat) 2 5)
              (group_node (Some 0%nat)
                 (rotateY_keys 2 (snd (create_button_on_clicked new_world))))
              ltac:(vm_compute; reflexivity) ltac:(vm_compute; reflexivity)
              ltac:(vm_compute; reflexivity) ltac:(vm_compute; reflexivity)
              ltac:(vm_compute; reflexivity))
    as (w' & Hw & Ht & _).
  exists w'. split; [exact Hw | exact Ht].
Defined.

(** X7.  Create with 0 typed as the angle interval stops on a division by
    zero after its objects are made: the scene has gained a sphere, a
    camera at (0, camera_height, camera_distance) under a group, and the
    group under the sphere; the three are recorded; the group has no key,
    the playback options and the Apply button are as they were, and what
    was in the scene is still there. *)
Theorem create_zero_interval_leaves_objects (w : world) :
  ds_value (rotation_widget (ui w)) == 0 ->
  exists w' t c g,
    create_button_on_clicked w = (inl ZeroDivisionError, w') /\
    (nodes (host w) !! t = None /\ nodes (host w) !! c = None /\
     nodes (host w) !! g = None /\ t <> c /\ t <> g /\ c <> g) /\
    (turntable_field (ui w') = Some t /\ camera_field (ui w') = Some c /\
     group_field (ui w') = Some g) /\
    (kind_of t w' = Some Sphere /\ parent_of t w' = Some None) /\
    (kind_of c w' = Some Camera /\ parent_of c w' = Some (Some g) /\
     translate_of c w'
       = Some (0, inject_Z (sb_value (spin (camera_height_widgets (ui w)))),
                  inject_Z (sb_value (spin (camera_distance_widgets (ui w)))))) /\
    (kind_of g w' = Some Group /\ parent_of g w' = Some (Some t) /\
     rotateY_keys g w' = []) /\
    options (host w') = options (host w) /\
    apply_enabled (ui w') = apply_enabled (ui w) /\
    (forall o nd, nodes (host w) !! o = Some nd ->
                  nodes (host w') !! o = Some nd).
Proof.
  intros Hz. apply Qeq_eq_bool in Hz.
  destruct (new_camera_fresh w) as [Hc Hct].
  destruct (new_group_fresh w) as [Hg [Hgt Hgc]].
  pose proof (new_sphere_fresh w) as Ht.
  exists (stalled_world w), (new_sphere (nodes (host w))),
         (new_camera (nodes (host w))), (new_group (nodes (host w))).
  split; [apply create_stalls; exact Hz|].
  split; [repeat split; try assumption; congruence|].
  split; [repeat split|].
  unfold kind_of, parent_of, translate_of, rotateY_keys, stalled_world.
  cbn [host nodes ui apply_enabled options].
  split; [|split; [|split]].
  - rewrite !lookup_insert_ne by congruence. rewrite lookup_insert_eq.
    split; reflexivity.
  - rewrite lookup_insert_ne by congruence. rewrite lookup_insert_eq.
    repeat split.
  - rewrite lookup_insert_eq. repeat split.
  - split; [reflexivity|]. split; [reflexivity|].
    intros o nd Ho. rewrite !lookup_insert_ne by congruence. exact Ho.
Qed.

Lemma create_zero_interval_leaves_objects_witness :
  exists w' t c g,
    create_button_on_clicked zero_world = (inl ZeroDivisionError, w') /\
    (kind_of g w' = Some Group /\ parent_of g w' = Some (Some t) /\
     rotateY_keys g w' = []) /\
    camera_field (ui w') = Some c.
Proof.
  destruct (create_zero_interval_leaves_objects zero_world
              ltac:(vm_compute; reflexivity))
    as (w' & t & c & g & Hw & _ & (_ & Hcf & _) & _ & _ & Hg & _).
  exists w', t, c, g. split; [exact Hw|]. split; [exact Hg | exact Hcf].
Defined.

(** The end time falls as the angle interval grows. *)
Lemma end_time_of_decreasing (t i1 i2 : Q) :
  0 < i1 -> i1 < i2 -> end_time_of t i2 < end_time_of t i1.
Proof.
  intros H1 H12. unfold end_time_of.
  assert (E1 : (360 - i1) / i1 == 360 * / i1 - 1) by (field; lra).
  assert (E2 : (360 - i2) / i2 == 360 * / i2 - 1) by (field; lra).
  rewrite E1, E2.
  assert (H : / i2 < / i1) by (apply -> Qinv_lt_contravar; lra).
  lra.
Qed.

Lemma end_time_of_same (t i1 i2 : Q) :
  ~ i1 == 0 -> i1 == i2 -> end_time_of t i1 == end_time_of t i2.
Proof. intros Hnz E. unfold end_time_of. rewrite E. reflexivity. Qed.

Lemma end_time_of_antitone (t i1 i2 : Q) :
  0 < i2 -> i2 <= i1 -> end_time_of t i1 <= end_time_of t i2.
Proof.
  intros H2 H21. apply Qle_lt_or_eq in H21. destruct H21 as [Hlt|Heq].
  - apply Qlt_le_weak, end_time_of_decreasing; assumption.
  - rewrite (end_time_of_same t i2 i1); [apply Qle_refl | lra | exact Heq].
Qed.

(** X8.  Create with an angle interval i1, then Apply with the angle
    spin box on i2, both in (0, 90]: the playback maximum becomes the end
    time of i2.  If i2 <= i1 the group's channel holds the two keys of
    i2.  If i2 > i1 the new end time lies before the old one, and the old
    closing key, outside the range that line 365 cuts, stays on the
    channel behind the two new keys. *)
Theorem apply_after_changing_interval (w : world) (i2 : Q) :
  0 < ds_value (rotation_widget (ui w)) ->
  ds_value (rotation_widget (ui w)) <= 90 ->
  0 < i2 -> i2 <= 90 ->
  exists w1 w2 g,
    create_button_on_clicked w = (inr tt, w1) /\
    group_field (ui w1) = Some g /\
    apply_button_on_clicked (show_angle i2 w1) = (inr tt, w2) /\
    maxTime (options (host w2)) = end_time_of (minTime (options (host w))) i2 /\
    (i2 <= ds_value (rotation_widget (ui w)) ->
     rotateY_keys g w2
     = [mkKey (end_time_of (minTime (options (host w))) i2)
              (end_time_of (minTime (options (host w))) i2 * i2) Linear Linear;
        mkKey (minTime (options (host w))) 0 Linear Linear]) /\
    (ds_value (rotation_widget (ui w)) < i2 ->
     end_time_of (minTime (options (host w))) i2
       < end_time_of (minTime (options (host w)))
           (ds_value (rotation_widget (ui w))) /\
     rotateY_keys g w2
     = [mkKey (end_time_of (minTime (options (host w))) i2)
              (end_time_of (minTime (options (host w))) i2 * i2) Linear Linear;
        mkKey (minTime (options (host w))) 0 Linear Linear;
        mkKey (end_time_of (minTime (options (host w)))
                 (ds_value (rotation_widget (ui w))))
              (end_time_of (minTime (options (host w)))
                 (ds_value (rotation_widget (ui w)))
               * ds_value (rotation_widget (ui w))) Linear Linear]).
Proof.
  intros H1 H1' H2 H2'.
  set (i1 := ds_value (rotation_widget (ui w))) in *.
  set (t0 := minTime (options (host w))).
  destruct (new_camera_fresh w) as [Hc Hct].
  destruct (new_group_fresh w) as [Hg [Hgt Hgc]].
  set (m := nodes (host w)) in *.
  pose proof (end_time_of_after t0 i1 H1 H1') as Ha1.
  pose proof (end_time_of_after t0 i2 H2 H2') as Ha2.
  set (k1 := mkKey (end_time_of t0 i1) (end_time_of t0 i1 * i1) Linear Linear).
  set (k0 := mkKey t0 0 Linear Linear).
  assert (Hz1 : Qeq_bool i1 0 = false) by (apply nonzero_Qeq_bool; lra).
  assert (Hz2 : Qeq_bool i2 0 = false) by (apply nonzero_Qeq_bool; lra).
  exists (created_world w).
  exists (applied_world (new_camera m) (new_group m)
            (camera_node (Some (new_group m))
               (sb_value (spin (camera_height_widgets (ui w))))
               (sb_value (spin (camera_distance_widgets (ui w)))))
            (group_node (Some (new_sphere m)) [k1; k0])
            (show_angle i2 (created_world w))).
  exists (new_group m).
  split; [apply create_runs; exact Hz1|].
  split; [reflexivity|].
  split.
  { apply apply_updates; try reflexivity.
    - unfold show_angle, created_world. cbn [host nodes]. fold m. lookup_insert.
    - unfold show_angle, created_world. cbn [host nodes]. fold m.
      rewrite lookup_insert_eq. fold i1. fold t0.
      rewrite rotation_keys_forward by lra. reflexivity.
    - congruence.
    - exact Hz2. }
  split; [reflexivity|].
  unfold applied_world. rewrite rotateY_keys_rotation_world.
  change (minTime (options (host (moved_world (new_camera m)
            (camera_node (Some (new_group m))
               (sb_value (spin (camera_height_widgets (ui w))))
               (sb_value (spin (camera_distance_widgets (ui w)))))
            (show_angle i2 (created_world w)))))) with t0.
  change (angle_interval (ui (moved_world (new_camera m)
            (camera_node (Some (new_group m))
               (sb_value (spin (camera_height_widgets (ui w))))
               (sb_value (spin (camera_distance_widgets (ui w)))))
            (show_angle i2 (created_world w))))) with i2.
  cbn [group_node n_rotateY].
  rewrite rotation_keys_forward by lra.
  assert (Hin0 : in_range t0 (end_time_of t0 i2) t0 = true)
    by (apply in_range_iff; lra).
  unfold cut_keys. cbn [List.filter k1 k0 k_time]. rewrite Hin0. cbn [negb].
  split.
  - intros Hle.
    pose proof (end_time_of_antitone t0 i1 i2 H2 Hle).
    rewrite (proj2 (in_range_iff t0 (end_time_of t0 i2) (end_time_of t0 i1)))
      by lra.
    reflexivity.
  - intros Hlt.
    pose proof (end_time_of_decreasing t0 i1 i2 H1 Hlt) as Hd.
    split; [exact Hd|].
    assert (Hout : in_range t0 (end_time_of t0 i2) (end_time_of t0 i1) = false).
    { apply not_true_is_false. rewrite in_range_iff. lra. }
    rewrite Hout. reflexivity.
Qed.

Lemma apply_after_changing_interval_witness :
  exists w1 w2 g k1 k0 k,
    create_button_on_clicked new_world = (inr tt, w1) /\
    group_field (ui w1) = Some g /\
    apply_button_on_clicked (show_angle 1.5 w1) = (inr tt, w2) /\
    rotateY_keys g w2 = [k1; k0; k] /\
    k_time k1 < k_time k.
Proof.
  destruct (apply_after_changing_interval new_world 1.5
              ltac:(reflexivity) ltac:(discriminate)
              ltac:(reflexivity) ltac:(discriminate))
    as (w1 & w2 & g & Hw1 & Hg & Hw2 & _ & _ & Hstale).
  destruct (Hstale ltac:(reflexivity)) as [Hlt Hk].
  do 6 eexists.
  split; [exact Hw1|]. split; [exact Hg|]. split; [exact Hw2|].
  split; [exact Hk | exact Hlt].
Defined.

(** [set_rotation] run on what [set_rotation] left, with the same
    angle interval: whatever else the scene holds and the tool shows, the
    rotator and the playback options stay as they are. *)
Lemma rotation_world_again (r : nat) (nd : node) (w : world) (u : tool)
    (m' : gmap nat node) :
  angle_interval u = angle_interval (ui w) ->
  rotation_world r
    (with_keys nd
       (rotation_keys r (default_tangent (host w)) (minTime (options (host w)))
          (end_time_of (minTime (options (host w))) (angle_interval (ui w)))
          (end_time_of (minTime (options (host w))) (angle_interval (ui w))
           * angle_interval (ui w))
          (n_rotateY nd)))
    (mkWorld
       (mkScene m' (options (host (rotation_world r nd w)))
          (selected_keys (host (rotation_world r nd w)))
          (default_tangent (host (rotation_world r nd w))))
       u)
  = mkWorld
      (mkScene
         (<[r := with_keys nd
                   (rotation_keys r (default_tangent (host w))
                      (minTime (options (host w)))
                      (end_time_of (minTime (options (host w)))
                         (angle_interval (ui w)))
                      (end_time_of (minTime (options (host w)))
                         (angle_interval (ui w))
                       * angle_interval (ui w))
                      (n_rotateY nd))]> m')
         (options (host (rotation_world r nd w)))
         (selected_keys (host (rotation_world r nd w)))
         (default_tangent (host (rotation_world r nd w))))
      u.
Proof.
  intros Hi. unfold rotation_world.
  cbn [host ui nodes options selected_keys default_tangent minTime maxTime
       animationStartTime animationEndTime with_keys n_rotateY
       n_kind n_parent n_tx n_ty n_tz].
  rewrite Hi.
  rewrite keyed_range_again, rotation_keys_again, animation_end_again.
  reflexivity.
Qed.

(** X9.  Apply on a rig whose camera and group are still in the scene,
    with an angle interval other than zero; then, with the angle spin box
    untouched and the camera distance and height pairs left as [dp] and
    [hp], Apply again: the camera stands at the height and distance of
    [hp] and [dp], and the group's keys, the playback options and every
    other object are as the first Apply left them.  With the pairs
    untouched as well, the second Apply changes nothing at all. *)
Theorem apply_again_after_moving (w : world) (c g : nat) (cn gn : node)
    (dp hp : linked) :
  camera_field (ui w) = Some c ->
  group_field (ui w) = Some g ->
  nodes (host w) !! c = Some cn ->
  nodes (host w) !! g = Some gn ->
  c <> g ->
  ~ ds_value (rotation_widget (ui w)) == 0 ->
  exists w1 w2,
    apply_button_on_clicked w = (inr tt, w1) /\
    apply_button_on_clicked (with_pairs dp hp w1) = (inr tt, w2) /\
    translate_of c w2
      = Some (n_tx cn, inject_Z (sb_value (spin hp)),
                       inject_Z (sb_value (spin dp))) /\
    rotateY_keys g w2 = rotateY_keys g w1 /\
    options (host w2) = options (host w1) /\
    (forall o, o <> c -> nodes (host w2) !! o = nodes (host w1) !! o) /\
    apply_button_on_clicked w1 = (inr tt, w1).
Proof.
  intros Hcf Hgf Hc Hg Hne Hnz.
  pose proof (nonzero_Qeq_bool _ Hnz) as Hz.
  pose (wm := moved_world c cn w).
  pose (w1 := rotation_world g gn wm).
  pose (gn1 := with_keys gn
                 (rotation_keys g (default_tangent (host wm))
                    (minTime (options (host wm)))
                    (end_time_of (minTime (options (host wm)))
                       (angle_interval (ui wm)))
                    (end_time_of (minTime (options (host wm)))
                       (angle_interval (ui wm)) * angle_interval (ui wm))
                    (n_rotateY gn))).
  assert (Hc1 : nodes (host w1) !! c
                = Some (mkNode (n_kind cn) (n_parent cn) (n_tx cn)
                          (inject_Z (sb_value (spin (camera_height_widgets (ui w)))))
                          (inject_Z (sb_value (spin (camera_distance_widgets (ui w)))))
                          (n_rotateY cn))).
  { unfold w1, wm, rotation_world, moved_world. cbn [host nodes].
    rewrite lookup_insert_ne by congruence. apply lookup_insert_eq. }
  assert (Hg1 : nodes (host w1) !! g = Some gn1).
  { unfold w1, rotation_world. cbn [host nodes]. apply lookup_insert_eq. }
  assert (Happly : forall p q,
    apply_button_on_clicked (with_pairs p q w1)
    = (inr tt,
       mkWorld
         (mkScene
            (<[g := gn1]>
               (<[c := mkNode (n_kind cn) (n_parent cn) (n_tx cn)
                         (inject_Z (sb_value (spin q)))
                         (inject_Z (sb_value (spin p))) (n_rotateY cn)]>
                  (nodes (host w1))))
            (options (host w1)) (selected_keys (host w1))
            (default_tangent (host w1)))
         (read_settings (ui (with_pairs p q w1))))).
  { intros p q.
    rewrite (apply_updates (with_pairs p q w1) c g _ gn1 Hcf Hgf Hc1 Hg1 Hne Hz).
    f_equal. unfold applied_world.
    exact (rotation_world_again g gn wm
             (read_settings (ui (with_pairs p q w1)))
             (<[c := mkNode (n_kind cn) (n_parent cn) (n_tx cn)
                       (inject_Z (sb_value (spin q)))
                       (inject_Z (sb_value (spin p))) (n_rotateY cn)]>
                (nodes (host w1)))
             eq_refl). }
  exists w1. eexists.
  split; [apply apply_updates; assumption|].
  split; [apply Happly|].
  unfold translate_of, rotateY_keys. cbn [host nodes options].
  split.
  { rewrite lookup_insert_ne by congruence. rewrite lookup_insert_eq.
    reflexivity. }
  split; [rewrite lookup_insert_eq, Hg1; reflexivity|].
  split; [reflexivity|].
  split.
  { intros o Ho. destruct (decide (o = g)) as [->|Hog].
    - rewrite lookup_insert_eq. exact (eq_sym Hg1).
    - now rewrite !lookup_insert_ne by congruence. }
  change w1 with (with_pairs (camera_distance_widgets (ui w))
                    (camera_height_widgets (ui w)) w1) at 1.
  rewrite Happly. f_equal.
  rewrite (insert_id (nodes (host w1)) c _ Hc1).
  rewrite (insert_id (nodes (host w1)) g _ Hg1).
  reflexivity.
Qed.

Lemma apply_again_after_moving_witness :
  exists w1 w2,
    apply_button_on_clicked (snd (create_button_on_clicked new_world))
    = (inr tt, w1) /\
    apply_button_on_clicked
      (with_pairs (mkLinked (mkSpin 0 2147483647 9) (mkSlider 0 60 9))
                  camera_height_pair w1) = (inr tt, w2) /\
    translate_of 1 w2 = Some (0, inject_Z 2, inject_Z 9) /\
    rotateY_keys 2 w2 = rotateY_keys 2 w1.
Proof.
  destruct (apply_again_after_moving
              (snd (create_button_on_clicked new_world)) 1 2
              (camera_node (Some 2%nat) 2 5)
              (group_node (Some 0%nat)
                 (rotateY_keys 2 (snd (create_button_on_clicked new_world))))
              (mkLinked (mkSpin 0 2147483647 9) (mkSlider 0 60 9))
              camera_height_pair
              ltac:(vm_compute; reflexivity) ltac:(vm_compute; reflexivity)
              ltac:(vm_compute; reflexivity) ltac:(vm_compute; reflexivity)
              ltac:(discriminate) ltac:(discriminate))
    as (w1 & w2 & H1 & H2 & Ht & Hk & _).
  exists w1, w2. split; [exact H1|]. split; [exact H2|].
  split; [exact Ht | exact Hk].
Defined.

(** X10.  For an angle interval in [-90, 0), which the spin box admits,
    [set_rotation] ends without error with the end time
    T0 - 1 + (360 - interval) / interval as the playback maximum; that end
    time lies at least 6 frames before the start time T0, so the playback
    maximum is left below the playback minimum, and the value keyed at the
    end time is 360 + (T0 - 2) * interval. *)
Theorem set_rotation_negative_interval (w : world) (r : nat) (nd : node) :
  nodes (host w) !! r = Some nd ->
  -90 <= angle_interval (ui w) ->
  angle_interval (ui w) < 0 ->
  exists w',
    set_rotation r w = (inr tt, w') /\
    minTime (options (host w')) = minTime (options (host w)) /\
    maxTime (options (host w'))
      == minTime (options (host w)) - 1
         + (360 - angle_interval (ui w)) / angle_interval (ui w) /\
    maxTime (options (host w')) <= minTime (options (host w')) - 6 /\
    exists k rest,
      rotateY_keys r w' = k :: rest /\
      k_time k = maxTime (options (host w')) /\
      k_value k == 360 + (minTime (options (host w)) - 2) * angle_interval (ui w).
Proof.
  intros Hr Hlo Hneg.
  pose proof (frames_at_most_minus_5 _ Hneg Hlo) as H5.
  pose proof (end_time_of_before (minTime (options (host w))) _ Hneg Hlo) as Hb.
  exists (rotation_world r nd w).
  split; [apply set_rotation_runs; [exact Hr | apply nonzero_Qeq_bool; lra]|].
  split; [reflexivity|].
  split; [apply end_time_of_formula|].
  split.
  { cbn [rotation_world host options maxTime minTime]. unfold end_time_of. lra. }
  rewrite rotateY_keys_rotation_world, rotation_keys_backward by exact Hb.
  do 2 eexists. split; [reflexivity|].
  cbn [k_time k_value]. split; [reflexivity|].
  apply end_value_formula. lra.
Qed.

Lemma set_rotation_negative_interval_witness :
  exists w',
    set_rotation 0
      (mkWorld (host long_world)
         (mkTool None None None 5 2 (-0.75) camera_distance_pair
            camera_height_pair turntable_rotation_double_spin_box false))
    = (inr tt, w') /\
    maxTime (options (host w')) <= minTime (options (host w')) - 6.
Proof.
  destruct (set_rotation_negative_interval
              (mkWorld (host long_world)
                 (mkTool None None None 5 2 (-0.75) camera_distance_pair
                    camera_height_pair turntable_rotation_double_spin_box false))
              0 lone_group eq_refl ltac:(discriminate) ltac:(reflexivity))
    as (w' & Hw & _ & _ & Hlt & _).
  exists w'. split; [exact Hw | exact Hlt].
Defined.

(** X11.  Once a camera and a group are recorded, whether or not they are
    still in the scene, and even if they are one object, Apply raises
    nothing but the division by zero of line 359, and raises it exactly
    when the angle interval typed in the panel is zero: the guard of line
    339 keeps every host command on objects that exist. *)
Theorem apply_fails_only_by_division (w : world) (c g : nat) :
  camera_field (ui w) = Some c ->
  group_field (ui w) = Some g ->
  (~ ds_value (rotation_widget (ui w)) == 0 ->
   fst (apply_button_on_clicked w) = inr tt) /\
  (ds_value (rotation_widget (ui w)) == 0 ->
   fst (apply_button_on_clicked w) = inl ZeroDivisionError).
Proof.
  intros Hcf Hgf.
  assert (Hcases :
    (nodes (host w) !! c = None \/ nodes (host w) !! g = None) \/
    (exists cn gn, nodes (host w) !! c = Some cn /\ nodes (host w) !! g = Some gn)).
  { destruct (nodes (host w) !! c) as [cn|]; [|left; left; reflexivity].
    destruct (nodes (host w) !! g) as [gn|]; [|left; right; reflexivity].
    right. eauto. }
  destruct Hcases as [Hmiss | (cn & gn & Hc & Hg)].
  - rewrite (apply_falls_back w c g Hcf Hgf Hmiss). split.
    + intros Hnz. rewrite create_runs by (now apply nonzero_Qeq_bool).
      reflexivity.
    + intros Hz. rewrite create_stalls by (now apply Qeq_eq_bool).
      reflexivity.
  - rewrite (apply_moves w c g cn gn Hcf Hgf Hc Hg).
    assert (Hg' : exists gn', nodes (host (moved_world c cn w)) !! g = Some gn').
    { unfold moved_world. cbn [host nodes].
      destruct (decide (g = c)) as [->|Hne].
      - rewrite lookup_insert_eq. eauto.
      - rewrite lookup_insert_ne by congruence. eauto. }
    destruct Hg' as [gn' Hg'].
    split.
    + intros Hnz.
      rewrite (set_rotation_runs g _ gn' Hg') by (now apply nonzero_Qeq_bool).
      reflexivity.
    + intros Hz. rewrite set_rotation_raises by (now apply Qeq_eq_bool).
      reflexivity.
Qed.

Lemma apply_fails_only_by_division_witness :
  fst (apply_button_on_clicked orphaned_world) = inr tt.
Proof.
  apply (proj1 (apply_fails_only_by_division orphaned_world 1 2
                  ltac:(vm_compute; reflexivity) ltac:(vm_compute; reflexivity))).
  discriminate.
Defined.

(** X13.  Whatever keys the user had selected, after [set_rotation] with
    an angle interval in (0, 90] the key selection is the two keys just
    set on the rotator, the closing one and the opening one: line 370
    replaces the selection, and line 371 then acts on these two only. *)
Theorem set_rotation_replaces_selection (w : world) (r : nat) (nd : node) :
  nodes (host w) !! r = Some nd ->
  0 < angle_interval (ui w) ->
  angle_interval (ui w) <= 90 ->
  exists w',
    set_rotation r w = (inr tt, w') /\
    selected_keys (host w')
      = [(r, maxTime (options (host w'))); (r, minTime (options (host w)))].
Proof.
  intros Hr Hpos Hle.
  pose proof (end_time_of_after (minTime (options (host w))) _ Hpos Hle) as Ha.
  exists (rotation_world r nd w).
  split; [apply set_rotation_runs; [exact Hr | apply nonzero_Qeq_bool; lra]|].
  cbn [rotation_world host selected_keys options maxTime].
  set (t0 := minTime (options (host w))) in *.
  set (t1 := end_time_of t0 (angle_interval (ui w))) in *.
  unfold keys_in_range, keyed_range, set_key. cbn [k_time List.filter].
  assert (Hin1 : in_range t0 t1 t1 = true) by (apply in_range_iff; lra).
  assert (Hin0 : in_range t0 t1 t0 = true) by (apply in_range_iff; lra).
  rewrite (Qeq_bool_false t0 t1) by lra. cbn [negb List.filter k_time].
  rewrite Hin1, Hin0. cbn [List.map k_time]. do 2 f_equal.
  rewrite filter_none; [reflexivity|].
  intros k Hk. apply filter_In in Hk. destruct Hk as [Hk _].
  apply filter_In in Hk. destruct Hk as [Hk _].
  apply (cut_keys_outside _ _ _ _ Hk).
Qed.

Lemma set_rotation_replaces_selection_witness :
  exists w',
    set_rotation 0 long_world = (inr tt, w') /\
    selected_keys (host w')
      = [(0%nat, maxTime (options (host w')));
         (0%nat, minTime (options (host long_world)))].
Proof.
  apply (set_rotation_replaces_selection long_world 0 lone_group);
    [reflexivity | reflexivity | discriminate].
Defined.

(** ** The linked controls *)

Local Open Scope Z_scope.

Section Truncation.

Lemma to_int_inject_Z z : to_int (inject_Z z) = z.
Proof. unfold to_int. cbn. apply Z.quot_1_r. Qed.

Lemma to_int_of_integer (x : Q) z : (x == inject_Z z)%Q -> to_int x = z.
Proof.
  unfold Qeq, to_int. cbn. rewrite Z.mul_1_r. intros ->.
  apply Z.quot_mul. discriminate.
Qed.

Lemma near_maximum_iff v p :
  near_maximum v p = true <-> 98 * sl_maximum (slide p) <= 100 * v.
Proof.
  unfold near_maximum. rewrite Qle_bool_iff. unfold Qle, buffer. cbn. lia.
Qed.

Lemma near_minimum_iff v p :
  near_minimum v p = true
  <-> sb_minimum (spin p) < 0 /\ 100 * v <= 98 * sl_minimum (slide p).
Proof.
  unfold near_minimum. rewrite andb_true_iff, Z.ltb_lt, Qle_bool_iff.
  unfold Qle, buffer. cbn. lia.
Qed.

Lemma scaled_up v : 0 <= v -> v <= Z.quot (v * 107) 100.
Proof.
  intros Hv. rewrite Z.quot_div_nonneg by lia.
  apply Z.div_le_lower_bound; lia.
Qed.

Lemma scaled_up_past v m :
  0 <= m -> 98 * m <= 100 * v -> m <= Z.quot (v * 107) 100.
Proof.
  intros Hm Hv. rewrite Z.quot_div_nonneg by lia.
  apply Z.div_le_lower_bound; lia.
Qed.

Lemma scaled_down v : v <= 0 -> Z.quot (v * 107) 100 <= v.
Proof.
  intros Hv. replace (v * 107) with (- ((- v) * 107)) by lia.
  rewrite Z.quot_opp_l by discriminate.
  pose proof (scaled_up (- v)). lia.
Qed.

Lemma scaled_down_past v m :
  m <= 0 -> 100 * v <= 98 * m -> Z.quot (v * 107) 100 <= m.
Proof.
  intros Hm Hv. replace (v * 107) with (- ((- v) * 107)) by lia.
  rewrite Z.quot_opp_l by discriminate.
  pose proof (scaled_up_past (- v) (- m)). lia.
Qed.

End Truncation.

Section AutoRange.

Lemma clamped_above (a : Q) s :
  to_int (if Qle_bool (inject_Z s) a then inject_Z s else a)
  = to_int (Qmin a (inject_Z s)).
Proof.
  destruct (Qle_bool (inject_Z s) a) eqn:E.
  - apply Qle_bool_iff in E. rewrite to_int_inject_Z. symmetry.
    apply to_int_of_integer. apply Q.min_r. exact E.
  - assert (H : (a < inject_Z s)%Q).
    { apply Qnot_le_lt. intros H. apply Qle_bool_iff in H. congruence. }
    unfold Qmin, GenericMinMax.gmin.
    rewrite (proj1 (Qlt_alt _ _) H). reflexivity.
Qed.

Lemma clamped_below (a : Q) s :
  to_int (if Qle_bool a (inject_Z s) then inject_Z s else a)
  = to_int (Qmax a (inject_Z s)).
Proof.
  destruct (Qle_bool a (inject_Z s)) eqn:E.
  - apply Qle_bool_iff in E. rewrite to_int_inject_Z. symmetry.
    apply to_int_of_integer. apply Q.max_r. exact E.
  - assert (H : (inject_Z s < a)%Q).
    { apply Qnot_le_lt. intros H. apply Qle_bool_iff in H. congruence. }
    unfold Qmax, GenericMinMax.gmax.
    rewrite (proj1 (Qgt_alt _ _) H). reflexivity.
Qed.

(** What the truncated, clamped maximum is, in integers. *)
Lemma clamped_above_Z v s :
  to_int (Qmin (inject_Z v * increment) (inject_Z s))
  = if 100 * s <=? v * 107 then s else Z.quot (v * 107) 100.
Proof.
  rewrite <- clamped_above.
  assert (E : Qle_bool (inject_Z s) (inject_Z v * increment)
              = (100 * s <=? v * 107)).
  { apply eq_true_iff_eq. rewrite Qle_bool_iff, Z.leb_le.
    unfold Qle, increment. cbn. lia. }
  rewrite E. destruct (100 * s <=? v * 107).
  - apply to_int_inject_Z.
  - reflexivity.
Qed.

Lemma clamped_below_Z v s :
  to_int (Qmax (inject_Z v * increment) (inject_Z s))
  = if v * 107 <=? 100 * s then s else Z.quot (v * 107) 100.
Proof.
  rewrite <- clamped_below.
  assert (E : Qle_bool (inject_Z v * increment) (inject_Z s)
              = (v * 107 <=? 100 * s)).
  { apply eq_true_iff_eq. rewrite Qle_bool_iff, Z.leb_le.
    unfold Qle, increment. cbn. lia. }
  rewrite E. destruct (v * 107 <=? 100 * s).
  - apply to_int_inject_Z.
  - reflexivity.
Qed.

Variables (v : Z) (p : linked).
Hypothesis ranged : well_ranged p.

(** The widened maximum is no smaller than the old one, stays within
    the spin box's range and makes room for the value. *)
Lemma widened_maximum_bounds :
  sl_maximum (slide p) <= widened_maximum v p <= sb_maximum (spin p) /\
  (v <= sb_maximum (spin p) -> near_maximum v p = true ->
   v <= widened_maximum v p).
Proof using ranged.
  destruct ranged as (H1 & H2 & H3 & H4 & H5 & H6).
  unfold widened_maximum.
  destruct (near_maximum v p) eqn:E; [|split; [lia | discriminate]].
  apply near_maximum_iff in E.
  rewrite clamped_above_Z.
  destruct (100 * sb_maximum (spin p) <=? v * 107) eqn:L.
  - split; [lia | intros; lia].
  - apply Z.leb_gt in L.
    pose proof (scaled_up_past v (sl_maximum (slide p)) ltac:(lia) E).
    pose proof (scaled_up v ltac:(lia)).
    assert (Z.quot (v * 107) 100 <= sb_maximum (spin p)).
    { rewrite Z.quot_div_nonneg by lia.
      apply Z.lt_le_incl, Z.div_lt_upper_bound; lia. }
    split; [lia | intros; lia].
Qed.

Lemma widened_minimum_bounds :
  sb_minimum (spin p) <= widened_minimum v p <= sl_minimum (slide p) /\
  (sb_minimum (spin p) <= v -> near_minimum v p = true ->
   widened_minimum v p <= v).
Proof using ranged.
  destruct ranged as (H1 & H2 & H3 & H4 & H5 & H6).
  unfold widened_minimum.
  destruct (near_minimum v p) eqn:E; [|split; [lia | discriminate]].
  apply near_minimum_iff in E. destruct E as [Hs E].
  rewrite clamped_below_Z.
  destruct (v * 107 <=? 100 * sb_minimum (spin p)) eqn:L.
  - split; [lia | intros; lia].
  - apply Z.leb_gt in L.
    pose proof (scaled_down_past v (sl_minimum (slide p)) ltac:(lia) E).
    pose proof (scaled_down v ltac:(lia)).
    assert (sb_minimum (spin p) <= Z.quot (v * 107) 100).
    { replace (v * 107) with (- ((- v) * 107)) by lia.
      rewrite Z.quot_opp_l by discriminate.
      rewrite Z.quot_div_nonneg by lia.
      assert ((- v * 107) / 100 < - sb_minimum (spin p))
        by (apply Z.div_lt_upper_bound; lia).
      lia. }
    split; [lia | intros; lia].
Qed.

End AutoRange.

Section Wiring.

Variable rec : Z -> linked -> option linked.

Lemma bound_inside lo hi x : lo <= x <= hi -> bound lo hi x = x.
Proof. unfold bound. lia. Qed.

Lemma bound_bounds lo hi x : lo <= hi -> lo <= bound lo hi x <= hi.
Proof. unfold bound. lia. Qed.

(** A range that still holds the value is stored without a signal. *)
Lemma slider_setRange_quiet lo hi p :
  lo <= sl_value (slide p) <= hi ->
  slider_setRange_with rec lo hi p
  = Some (mkLinked (spin p) (mkSlider lo hi (sl_value (slide p)))).
Proof.
  intros H. unfold slider_setRange_with, slider_setValue_with, set_slider_range.
  cbn [slide sl_minimum sl_maximum sl_value].
  replace (Z.max lo hi) with hi by lia.
  destruct (Z.eqb lo (sl_minimum (slide p)) && Z.eqb hi (sl_maximum (slide p)))
    eqn:E.
  - apply andb_true_iff in E. destruct E as [E1 E2].
    apply Z.eqb_eq in E1, E2. subst lo hi.
    destruct p as [sp [a b c]]. reflexivity.
  - rewrite bound_inside by lia. rewrite Z.eqb_refl. reflexivity.
Qed.

Lemma on_value_changed_widens v p :
  well_ranged p -> on_value_changed_with rec v p = Some (widened v p).
Proof.
  intros Hr.
  pose proof (widened_maximum_bounds v p Hr) as [Hmax _].
  pose proof (widened_minimum_bounds v p Hr) as [Hmin _].
  destruct Hr as (H1 & H2 & H3 & H4 & H5 & H6).
  unfold on_value_changed_with, widened.
  unfold widened_maximum, widened_minimum in *.
  fold (near_maximum v p).
  destruct (near_maximum v p) eqn:Emax.
  - rewrite clamped_above.
    rewrite slider_setRange_quiet by (cbn; lia).
    cbn [mbind option_bind spin slide sl_minimum sl_maximum sl_value].
    fold (near_minimum v p).
    destruct (near_minimum v p) eqn:Emin.
    + rewrite clamped_below.
      rewrite slider_setRange_quiet by (cbn; lia). reflexivity.
    + destruct p as [sp [a b c]]. reflexivity.
  - cbn [mbind option_bind].
    fold (near_minimum v p).
    destruct (near_minimum v p) eqn:Emin.
    + rewrite clamped_below.
      rewrite slider_setRange_quiet by (cbn; lia). reflexivity.
    + destruct p as [sp [a b c]]. reflexivity.
Qed.

End Wiring.

Section Sync.

Variable p : linked.
Hypothesis wired : well_wired p.

Lemma synced_wired x :
  sb_minimum (spin p) <= x <= sb_maximum (spin p) ->
  well_wired (synced x p).
Proof using wired.
  intros Hx. destruct wired as [Hr Hv].
  pose proof (widened_maximum_bounds x p Hr) as [Hmax Hmax'].
  pose proof (widened_minimum_bounds x p Hr) as [Hmin Hmin'].
  destruct Hr as (H1 & H2 & H3 & H4 & H5 & H6).
  assert (Hhi : x <= widened_maximum x p).
  { destruct (near_maximum x p) eqn:E; [apply Hmax'; [lia | reflexivity]|].
    assert (~ 98 * sl_maximum (slide p) <= 100 * x)
      by (rewrite <- near_maximum_iff; congruence).
    lia. }
  assert (Hlo : widened_minimum x p <= x).
  { destruct (near_minimum x p) eqn:E; [apply Hmin'; [lia | reflexivity]|].
    assert (~ (sb_minimum (spin p) < 0
               /\ 100 * x <= 98 * sl_minimum (slide p)))
      by (rewrite <- near_minimum_iff; congruence).
    lia. }
  unfold well_wired, well_ranged, synced. cbn. lia.
Qed.

(** Setting the spin box, with fuel for the two nested signals. *)
Lemma spin_setValue_syncs n v :
  spin_setValue (S (S n)) v p
  = Some (let x := bound (sb_minimum (spin p)) (sb_maximum (spin p)) v in
          if Z.eqb x (sb_value (spin p)) then p else synced x p).
Proof using wired.
  destruct wired as [Hr Hv].
  set (x := bound (sb_minimum (spin p)) (sb_maximum (spin p)) v).
  assert (Hx : sb_minimum (spin p) <= x <= sb_maximum (spin p)).
  { apply bound_bounds. unfold well_ranged in Hr. lia. }
  pose proof (synced_wired x Hx) as [Hr' _].
  cbv zeta.
  change (spin_setValue (S (S n)) v p) with
    (if Z.eqb x (sb_value (spin p)) then Some p
     else
       p1 ← on_value_changed_with (spin_setValue (S n)) x (set_spin_value x p);
       slider_setValue_with (spin_setValue (S n)) x p1).
  destruct (Z.eqb x (sb_value (spin p))) eqn:E; [reflexivity|].
  apply Z.eqb_neq in E.
  rewrite on_value_changed_widens by exact Hr.
  change (widened x (set_spin_value x p)) with
    (mkLinked (mkSpin (sb_minimum (spin p)) (sb_maximum (spin p)) x)
       (mkSlider (widened_minimum x p) (widened_maximum x p)
          (sl_value (slide p)))).
  cbn [mbind option_bind].
  unfold slider_setValue_with.
  cbn [slide spin sl_minimum sl_maximum sl_value].
  unfold well_ranged, synced in Hr'.
  cbn [slide spin sl_minimum sl_maximum sl_value sb_minimum sb_maximum] in Hr'.
  rewrite bound_inside by lia.
  assert (E' : Z.eqb x (sl_value (slide p)) = false)
    by (apply Z.eqb_neq; congruence).
  rewrite E'.
  cbn [spin_setValue set_slider_value spin slide sb_minimum sb_maximum
       sb_value].
  rewrite (bound_inside _ _ x) by lia. rewrite Z.eqb_refl. reflexivity.
Qed.

(** Setting the slider. *)
Lemma slider_setValue_syncs n v :
  slider_setValue (S (S n)) v p
  = Some (let x := bound (sl_minimum (slide p)) (sl_maximum (slide p)) v in
          if Z.eqb x (sl_value (slide p)) then p else synced x p).
Proof using wired.
  destruct wired as [Hr Hv].
  set (x := bound (sl_minimum (slide p)) (sl_maximum (slide p)) v).
  assert (Hx : sl_minimum (slide p) <= x <= sl_maximum (slide p)).
  { apply bound_bounds. unfold well_ranged in Hr. lia. }
  assert (Hx' : sb_minimum (spin p) <= x <= sb_maximum (spin p))
    by (unfold well_ranged in Hr; lia).
  pose proof (synced_wired x Hx') as [Hr' _].
  cbv zeta. unfold slider_setValue, slider_setValue_with. fold x.
  destruct (Z.eqb x (sl_value (slide p))) eqn:E; [reflexivity|].
  apply Z.eqb_neq in E.
  change (spin_setValue (S (S n)) x (set_slider_value x p)) with
    (let y := bound (sb_minimum (spin p)) (sb_maximum (spin p)) x in
     if Z.eqb y (sb_value (spin p)) then Some (set_slider_value x p)
     else
       p1 ← on_value_changed_with (spin_setValue (S n)) y
              (set_spin_value y (set_slider_value x p));
       slider_setValue_with (spin_setValue (S n)) y p1).
  cbv zeta. rewrite bound_inside by lia.
  assert (E' : Z.eqb x (sb_value (spin p)) = false)
    by (apply Z.eqb_neq; congruence).
  rewrite E'.
  rewrite on_value_changed_widens
    by (unfold well_ranged in *; cbn; lia).
  change (widened x (set_spin_value x (set_slider_value x p))) with
    (mkLinked (mkSpin (sb_minimum (spin p)) (sb_maximum (spin p)) x)
       (mkSlider (widened_minimum x p) (widened_maximum x p) x)).
  cbn [mbind option_bind].
  unfold slider_setValue_with.
  cbn [slide spin sl_minimum sl_maximum sl_value].
  unfold well_ranged, synced in Hr'.
  cbn [slide spin sl_minimum sl_maximum sl_value sb_minimum sb_maximum] in Hr'.
  rewrite bound_inside by lia. rewrite Z.eqb_refl. reflexivity.
Qed.

End Sync.

Lemma camera_distance_pair_wired : well_wired camera_distance_pair.
Proof. unfold well_wired, well_ranged. cbn. lia. Qed.

Lemma camera_height_pair_wired : well_wired camera_height_pair.
Proof. unfold well_wired, well_ranged. cbn. lia. Qed.

Lemma perform_wired (fuel : nat) (a : action) (p : linked) :
  well_wired p -> (2 <= fuel)%nat ->
  exists p',
    perform fuel a p = Some p' /\ well_wired p' /\
    match a with
    | SetSpin v =>
        sb_value (spin p')
        = bound (sb_minimum (spin p)) (sb_maximum (spin p)) v
    | SetSlider v =>
        sl_value (slide p')
        = bound (sl_minimum (slide p)) (sl_maximum (slide p)) v
    end.
Proof.
  intros Hw Hf.
  destruct fuel as [|[|n]]; [lia | lia |].
  pose proof Hw as [Hr Hv]. unfold well_ranged in Hr.
  destruct a as [v|v]; cbn [perform].
  - rewrite (spin_setValue_syncs p Hw). cbv zeta.
    set (x := bound (sb_minimum (spin p)) (sb_maximum (spin p)) v).
    destruct (Z.eqb x (sb_value (spin p))) eqn:E.
    + apply Z.eqb_eq in E. eauto.
    + eexists. split; [reflexivity|]. split; [|reflexivity].
      apply synced_wired; [exact Hw|]. apply bound_bounds. lia.
  - rewrite (slider_setValue_syncs p Hw). cbv zeta.
    set (x := bound (sl_minimum (slide p)) (sl_maximum (slide p)) v).
    destruct (Z.eqb x (sl_value (slide p))) eqn:E.
    + apply Z.eqb_eq in E. eauto.
    + eexists. split; [reflexivity|]. split; [|reflexivity].
      apply synced_wired; [exact Hw|].
      pose proof (bound_bounds (sl_minimum (slide p)) (sl_maximum (slide p)) v
                    ltac:(lia)).
      fold x in H. lia.
Qed.

Lemma perform_all_wired (fuel : nat) (acts : list action) (p : linked) :
  well_wired p -> (2 <= fuel)%nat ->
  exists p', perform_all fuel acts p = Some p' /\ well_wired p'.
Proof.
  intros Hw Hf. revert p Hw.
  induction acts as [|a acts IH]; intros p Hw; cbn [perform_all].
  - eauto.
  - destruct (perform_wired fuel a p Hw Hf) as (p1 & -> & Hw1 & _).
    cbn [mbind option_bind]. apply IH. exact Hw1.
Qed.

(** C9.  Take either linked pair as [initialize_UI] builds it, let the
    user change its spin box and its slider any number of times, then
    once more.  Each change goes through, with fuel for two nested
    signals, and leaves the spin box and the slider on one value: the
    value asked for, bounded by the range of the control it was set on. *)
Theorem linked_controls_agree (fuel : nat) (acts : list action) (a : action)
    (p0 : linked) :
  p0 = camera_distance_pair \/ p0 = camera_height_pair ->
  (2 <= fuel)%nat ->
  exists p p',
    perform_all fuel acts p0 = Some p /\
    perform fuel a p = Some p' /\
    sb_value (spin p') = sl_value (slide p') /\
    (forall v, a = SetSpin v ->
       sb_value (spin p')
         = bound (sb_minimum (spin p)) (sb_maximum (spin p)) v /\
       (sb_minimum (spin p) <= v <= sb_maximum (spin p) ->
        sb_value (spin p') = v /\ sl_value (slide p') = v)) /\
    (forall v, a = SetSlider v ->
       sl_value (slide p')
         = bound (sl_minimum (slide p)) (sl_maximum (slide p)) v /\
       (sl_minimum (slide p) <= v <= sl_maximum (slide p) ->
        sl_value (slide p') = v /\ sb_value (spin p') = v)).
Proof.
  intros H0 Hf.
  assert (Hw0 : well_wired p0)
    by (destruct H0 as [->| ->];
        [apply camera_distance_pair_wired | apply camera_height_pair_wired]).
  destruct (perform_all_wired fuel acts p0 Hw0 Hf) as (p & Hp & Hw).
  destruct (perform_wired fuel a p Hw Hf) as (p' & Hp' & [_ Hv] & Ha).
  exists p, p'. split; [exact Hp|]. split; [exact Hp'|]. split; [exact Hv|].
  split; intros v ->.
  - split; [exact Ha|]. intros Hin. rewrite bound_inside in Ha by exact Hin.
    split; congruence.
  - split; [exact Ha|]. intros Hin. rewrite bound_inside in Ha by exact Hin.
    split; congruence.
Qed.

Lemma linked_controls_agree_witness :
  exists p p',
    perform_all 2 [SetSpin 59; SetSlider 3] camera_distance_pair = Some p /\
    perform 2 (SetSpin 100) p = Some p' /\
    sb_value (spin p') = sl_value (slide p') /\
    (forall v, SetSpin 100 = SetSpin v ->
       sb_value (spin p')
         = bound (sb_minimum (spin p)) (sb_maximum (spin p)) v /\
       (sb_minimum (spin p) <= v <= sb_maximum (spin p) ->
        sb_value (spin p') = v /\ sl_value (slide p') = v)) /\
    (forall v, SetSpin 100 = SetSlider v ->
       sl_value (slide p')
         = bound (sl_minimum (slide p)) (sl_maximum (slide p)) v /\
       (sl_minimum (slide p) <= v <= sl_maximum (slide p) ->
        sl_value (slide p') = v /\ sb_value (spin p') = v)).
Proof.
  apply (linked_controls_agree 2 [SetSpin 59; SetSlider 3] (SetSpin 100)
           camera_distance_pair); [left; reflexivity | lia].
Defined.

Lemma to_int_floor (x : Q) :
  (0 <= x)%Q -> (inject_Z (to_int x) <= x /\ x < inject_Z (to_int x) + 1)%Q.
Proof.
  intros Hx.
  assert (E : to_int x = Qfloor x).
  { unfold to_int, Qfloor. destruct x as [n d]. cbn.
    apply Z.quot_div_nonneg; [|lia].
    unfold Qle in Hx. cbn in Hx. lia. }
  rewrite E. split; [apply Qfloor_le|].
  pose proof (Qlt_floor x) as H. rewrite inject_Z_plus in H. exact H.
Qed.

(** C8, as the code has it.  For a pair whose slider's range lies within
    the spin box's, straddles zero and holds the slider's value, the
    handler, run on a value v, ends; if v >= 0.98 * the slider's maximum,
    the slider's maximum becomes min(v * 1.07, the spin box's maximum) cut
    to an integer, that is, its integer part; otherwise the slider's
    maximum is unchanged. *)
Theorem slider_maximum_after_value_changed (fuel : nat) (v : Z) (p : linked) :
  well_ranged p ->
  exists p',
    on_value_changed fuel v p = Some p' /\
    ((inject_Z (sl_maximum (slide p)) * 0.98 <= inject_Z v)%Q ->
     sl_maximum (slide p')
       = to_int (Qmin (inject_Z v * 1.07) (inject_Z (sb_maximum (spin p)))) /\
     (inject_Z (sl_maximum (slide p'))
        <= Qmin (inject_Z v * 1.07) (inject_Z (sb_maximum (spin p))))%Q /\
     (Qmin (inject_Z v * 1.07) (inject_Z (sb_maximum (spin p)))
        < inject_Z (sl_maximum (slide p')) + 1)%Q) /\
    (~ (inject_Z (sl_maximum (slide p)) * 0.98 <= inject_Z v)%Q ->
     sl_maximum (slide p') = sl_maximum (slide p)).
Proof.
  intros Hr. exists (widened v p).
  split; [apply on_value_changed_widens; exact Hr|].
  unfold widened. cbn [slide sl_maximum]. unfold widened_maximum, near_maximum.
  change buffer with 0.98%Q. change increment with 1.07%Q.
  split.
  - intros Hnear. rewrite (proj2 (Qle_bool_iff _ _) Hnear).
    split; [reflexivity|].
    apply to_int_floor.
    destruct Hr as (H1 & H2 & H3 & H4 & H5 & H6).
    apply Q.min_glb.
    + assert (0 <= inject_Z v)%Q.
      { unfold Qle in *. cbn in *. lia. }
      apply Qmult_le_0_compat; [assumption | discriminate].
    + unfold Qle. cbn. lia.
  - intros Hfar.
    destruct (Qle_bool _ _) eqn:E; [|reflexivity].
    apply Qle_bool_iff in E. contradiction.
Qed.

Lemma slider_maximum_after_value_changed_witness :
  exists p',
    on_value_changed 0 59 camera_distance_pair = Some p' /\
    ((inject_Z (sl_maximum (slide camera_distance_pair)) * 0.98 <= inject_Z 59)%Q ->
     sl_maximum (slide p')
       = to_int (Qmin (inject_Z 59 * 1.07)
                   (inject_Z (sb_maximum (spin camera_distance_pair)))) /\
     (inject_Z (sl_maximum (slide p'))
        <= Qmin (inject_Z 59 * 1.07)
             (inject_Z (sb_maximum (spin camera_distance_pair))))%Q /\
     (Qmin (inject_Z 59 * 1.07)
        (inject_Z (sb_maximum (spin camera_distance_pair)))
        < inject_Z (sl_maximum (slide p')) + 1)%Q) /\
    (~ (inject_Z (sl_maximum (slide camera_distance_pair)) * 0.98
        <= inject_Z 59)%Q ->
     sl_maximum (slide p') = sl_maximum (slide camera_distance_pair)).
Proof.
  apply (slider_maximum_after_value_changed 0 59 camera_distance_pair).
  unfold well_ranged. cbn. lia.
Defined.

(** On the camera distance pair as built, a value of 59 is within 2% of
    the slider's maximum of 60; the handler sets the maximum to 63, which
    is not min(59 * 1.07, 2147483647) = 63.13. *)
Lemma slider_maximum_is_integer_counterexample :
  (inject_Z (sl_maximum (slide camera_distance_pair)) * 0.98 <= inject_Z 59)%Q /\
  exists p',
    on_value_changed 0 59 camera_distance_pair = Some p' /\
    sl_maximum (slide p') = 63 /\
    (Qmin (inject_Z 59 * 1.07)
          (inject_Z (sb_maximum (spin camera_distance_pair))) == 63.13)%Q /\
    ~ (inject_Z (sl_maximum (slide p'))
       == Qmin (inject_Z 59 * 1.07)
               (inject_Z (sb_maximum (spin camera_distance_pair))))%Q.
Proof.
  split; [vm_compute; discriminate|].
  eexists. split; [vm_compute; reflexivity|].
  cbn [slide sl_maximum]. split; [reflexivity|].
  split; [vm_compute; reflexivity|].
  intros H. vm_compute in H. discriminate H.
Qed.

(** ** More on the linked controls *)

Lemma to_int_opp (x : Q) : to_int (- x) = - to_int x.
Proof.
  unfold to_int. destruct x as [n d]. cbn. apply Z.quot_opp_l. discriminate.
Qed.

Lemma to_int_ceiling (x : Q) :
  (x <= 0)%Q -> (x <= inject_Z (to_int x) /\ inject_Z (to_int x) - 1 < x)%Q.
Proof.
  intros Hx.
  assert (H0 : (0 <= - x)%Q) by lra.
  destruct (to_int_floor (- x) H0) as [Hlo Hhi].
  rewrite to_int_opp, inject_Z_opp in Hlo, Hhi. lra.
Qed.

(** X1.  For a pair whose slider's range lies within the spin box's,
    straddles zero and holds the slider's value, the handler run on a
    value v lowers the slider's minimum only when the spin box admits
    negative values and v <= 0.98 * the slider's minimum: the minimum
    then becomes max(v * 1.07, the spin box's minimum) cut to an integer
    towards zero, which is the least integer not below it.  In every other
    case, and always for a spin box whose minimum is not negative, the
    slider's minimum stays. *)
Theorem slider_minimum_after_value_changed (fuel : nat) (v : Z) (p : linked) :
  well_ranged p ->
  exists p',
    on_value_changed fuel v p = Some p' /\
    (sb_minimum (spin p) < 0 ->
     (inject_Z v <= inject_Z (sl_minimum (slide p)) * 0.98)%Q ->
     sl_minimum (slide p')
       = to_int (Qmax (inject_Z v * 1.07) (inject_Z (sb_minimum (spin p)))) /\
     (Qmax (inject_Z v * 1.07) (inject_Z (sb_minimum (spin p)))
        <= inject_Z (sl_minimum (slide p')))%Q /\
     (inject_Z (sl_minimum (slide p')) - 1
        < Qmax (inject_Z v * 1.07) (inject_Z (sb_minimum (spin p))))%Q) /\
    (~ (inject_Z v <= inject_Z (sl_minimum (slide p)) * 0.98)%Q ->
     sl_minimum (slide p') = sl_minimum (slide p)) /\
    (0 <= sb_minimum (spin p) ->
     sl_minimum (slide p') = sl_minimum (slide p)).
Proof.
  intros Hr. exists (widened v p).
  split; [apply on_value_changed_widens; exact Hr|].
  unfold widened. cbn [slide sl_minimum]. unfold widened_minimum, near_minimum.
  change buffer with 0.98%Q. change increment with 1.07%Q.
  split; [|split].
  - intros Hneg Hnear.
    rewrite (proj2 (Z.ltb_lt _ _) Hneg), (proj2 (Qle_bool_iff _ _) Hnear).
    cbn [andb]. split; [reflexivity|].
    apply to_int_ceiling.
    apply Q.max_lub.
    + destruct Hr as (H1 & H2 & H3 & H4 & H5 & H6).
      assert (inject_Z v <= 0)%Q.
      { unfold Qle in *. cbn in *. lia. }
      assert (E : (inject_Z v * 1.07 == - ((- inject_Z v) * 1.07))%Q) by ring.
      rewrite E.
      assert (0 <= (- inject_Z v) * 1.07)%Q
        by (apply Qmult_le_0_compat; [lra | discriminate]).
      lra.
    + unfold Qle. cbn. lia.
  - intros Hfar.
    destruct (Qle_bool _ _) eqn:E.
    + apply Qle_bool_iff in E. contradiction.
    + rewrite andb_false_r. reflexivity.
  - intros Hpos.
    rewrite (proj2 (Z.ltb_ge _ _) Hpos). reflexivity.
Qed.

Lemma slider_minimum_after_value_changed_witness :
  exists p',
    on_value_changed 0 (-20) camera_height_pair = Some p' /\
    sl_minimum (slide p')
      = to_int (Qmax (inject_Z (-20) * 1.07)
                  (inject_Z (sb_minimum (spin camera_height_pair)))).
Proof.
  destruct (slider_minimum_after_value_changed 0 (-20) camera_height_pair
              ltac:(unfold well_ranged; cbn; lia)) as (p' & Hp & Hnear & _).
  exists p'. split; [exact Hp|].
  apply Hnear; [cbn; lia | vm_compute; discriminate].
Defined.

(** X2.  For such a pair the handler only widens: it leaves the spin box
    and the slider's value as they were, and the slider's new range
    contains the old one and stays within the spin box's range. *)
Theorem on_value_changed_only_widens (fuel : nat) (v : Z) (p : linked) :
  well_ranged p ->
  exists p',
    on_value_changed fuel v p = Some p' /\
    spin p' = spin p /\
    sl_value (slide p') = sl_value (slide p) /\
    sb_minimum (spin p) <= sl_minimum (slide p') /\
    sl_minimum (slide p') <= sl_minimum (slide p) /\
    sl_maximum (slide p) <= sl_maximum (slide p') /\
    sl_maximum (slide p') <= sb_maximum (spin p) /\
    well_ranged p'.
Proof.
  intros Hr. exists (widened v p).
  split; [apply on_value_changed_widens; exact Hr|].
  pose proof (widened_maximum_bounds v p Hr) as [Hmax _].
  pose proof (widened_minimum_bounds v p Hr) as [Hmin _].
  destruct Hr as (H1 & H2 & H3 & H4 & H5 & H6).
  unfold well_ranged, widened. cbn [spin slide sl_minimum sl_maximum sl_value].
  repeat split; lia.
Qed.

Lemma on_value_changed_only_widens_witness :
  exists p',
    on_value_changed 0 59 camera_distance_pair = Some p' /\
    spin p' = spin camera_distance_pair /\
    sl_value (slide p') = sl_value (slide camera_distance_pair) /\
    sb_minimum (spin camera_distance_pair) <= sl_minimum (slide p') /\
    sl_minimum (slide p') <= sl_minimum (slide camera_distance_pair) /\
    sl_maximum (slide camera_distance_pair) <= sl_maximum (slide p') /\
    sl_maximum (slide p') <= sb_maximum (spin camera_distance_pair) /\
    well_ranged p'.
Proof.
  apply (on_value_changed_only_widens 0 59 camera_distance_pair).
  unfold well_ranged. cbn. lia.
Defined.

(** One change by the user keeps the spin box's range and only widens the
    slider's. *)
Lemma perform_widens (fuel : nat) (a : action) (p p' : linked) :
  well_wired p -> (2 <= fuel)%nat -> perform fuel a p = Some p' ->
  sb_minimum (spin p') = sb_minimum (spin p) /\
  sb_maximum (spin p') = sb_maximum (spin p) /\
  sl_minimum (slide p') <= sl_minimum (slide p) /\
  sl_maximum (slide p) <= sl_maximum (slide p').
Proof.
  intros Hw Hf Hp.
  destruct fuel as [|[|n]]; [lia | lia |].
  pose proof Hw as [Hr _].
  assert (Hs : forall x, p' = synced x p ->
            sb_minimum (spin p') = sb_minimum (spin p) /\
            sb_maximum (spin p') = sb_maximum (spin p) /\
            sl_minimum (slide p') <= sl_minimum (slide p) /\
            sl_maximum (slide p) <= sl_maximum (slide p')).
  { intros x ->.
    pose proof (widened_maximum_bounds x p Hr) as [Hmax _].
    pose proof (widened_minimum_bounds x p Hr) as [Hmin _].
    unfold synced. cbn. lia. }
  destruct a as [v|v]; cbn [perform] in Hp.
  - rewrite (spin_setValue_syncs p Hw) in Hp. cbv zeta in Hp.
    destruct (Z.eqb _ _); injection Hp as <-; [lia | eapply Hs; reflexivity].
  - rewrite (slider_setValue_syncs p Hw) in Hp. cbv zeta in Hp.
    destruct (Z.eqb _ _); injection Hp as <-; [lia | eapply Hs; reflexivity].
Qed.

Lemma perform_all_widens (fuel : nat) (acts : list action) (p : linked) :
  well_wired p -> (2 <= fuel)%nat ->
  exists p',
    perform_all fuel acts p = Some p' /\ well_wired p' /\
    sb_minimum (spin p') = sb_minimum (spin p) /\
    sb_maximum (spin p') = sb_maximum (spin p) /\
    sl_minimum (slide p') <= sl_minimum (slide p) /\
    sl_maximum (slide p) <= sl_maximum (slide p').
Proof.
  intros Hw Hf. revert p Hw.
  induction acts as [|a acts IH]; intros p Hw; cbn [perform_all].
  - exists p. repeat split; try apply Hw; lia.
  - destruct (perform_wired fuel a p Hw Hf) as (p1 & Hp1 & Hw1 & _).
    rewrite Hp1. cbn [mbind option_bind].
    destruct (perform_widens fuel a p p1 Hw Hf Hp1) as (E1 & E2 & L1 & L2).
    destruct (IH p1 Hw1) as (p' & Hp' & Hw' & F1 & F2 & M1 & M2).
    exists p'. split; [exact Hp'|]. split; [exact Hw'|]. lia.
Qed.

(** X3.  Whatever the user does to the camera distance pair, starting
    from the pair as built: every change goes through, the spin box keeps
    its range 0 .. 2147483647, the slider's minimum stays 0, its maximum
    never drops below 60 nor passes the spin box's, and both controls
    show one value, which is not negative. *)
Theorem camera_distance_session (fuel : nat) (acts : list action) :
  (2 <= fuel)%nat ->
  exists p,
    perform_all fuel acts camera_distance_pair = Some p /\
    sb_minimum (spin p) = 0 /\ sb_maximum (spin p) = 2147483647 /\
    sl_minimum (slide p) = 0 /\
    60 <= sl_maximum (slide p) <= 2147483647 /\
    sb_value (spin p) = sl_value (slide p) /\
    0 <= sl_value (slide p) <= sl_maximum (slide p).
Proof.
  intros Hf.
  destruct (perform_all_widens fuel acts camera_distance_pair
              camera_distance_pair_wired Hf)
    as (p & Hp & [Hr Hv] & E1 & E2 & L1 & L2).
  exists p. split; [exact Hp|].
  unfold well_ranged in Hr. cbn in E1, E2, L1, L2. lia.
Qed.

Lemma camera_distance_session_witness :
  exists p,
    perform_all 2 [SetSpin 500; SetSlider (-3)] camera_distance_pair = Some p /\
    sb_minimum (spin p) = 0 /\ sb_maximum (spin p) = 2147483647 /\
    sl_minimum (slide p) = 0 /\
    60 <= sl_maximum (slide p) <= 2147483647 /\
    sb_value (spin p) = sl_value (slide p) /\
    0 <= sl_value (slide p) <= sl_maximum (slide p).
Proof.
  apply (camera_distance_session 2 [SetSpin 500; SetSlider (-3)]). lia.
Defined.

(** X4.  Likewise for the camera height pair: the spin box keeps its
    range, the slider's minimum never rises above -20 nor its maximum
    drops below 40, the slider's range stays within the spin box's and
    both controls show one value within the slider's range. *)
Theorem camera_height_session (fuel : nat) (acts : list action) :
  (2 <= fuel)%nat ->
  exists p,
    perform_all fuel acts camera_height_pair = Some p /\
    sb_minimum (spin p) = -2147483647 /\ sb_maximum (spin p) = 2147483647 /\
    -2147483647 <= sl_minimum (slide p) <= -20 /\
    40 <= sl_maximum (slide p) <= 2147483647 /\
    sb_value (spin p) = sl_value (slide p) /\
    sl_minimum (slide p) <= sl_value (slide p) <= sl_maximum (slide p).
Proof.
  intros Hf.
  destruct (perform_all_widens fuel acts camera_height_pair
              camera_height_pair_wired Hf)
    as (p & Hp & [Hr Hv] & E1 & E2 & L1 & L2).
  exists p. split; [exact Hp|].
  unfold well_ranged in Hr. cbn in E1, E2, L1, L2. lia.
Qed.

Lemma camera_height_session_witness :
  exists p,
    perform_all 2 [SetSpin (-500); SetSlider 39] camera_height_pair = Some p /\
    sb_minimum (spin p) = -2147483647 /\ sb_maximum (spin p) = 2147483647 /\
    -2147483647 <= sl_minimum (slide p) <= -20 /\
    40 <= sl_maximum (slide p) <= 2147483647 /\
    sb_value (spin p) = sl_value (slide p) /\
    sl_minimum (slide p) <= sl_value (slide p) <= sl_maximum (slide p).
Proof.
  apply (camera_height_session 2 [SetSpin (-500); SetSlider 39]). lia.
Defined.

(** X5.  Dragging the slider to its maximum, from a pair at rest on
    another value, moves both controls there and sets the slider's
    maximum to min(maximum * 1.07, the spin box's maximum) cut to an
    integer; the maximum grows whenever it was at least 15 and below the
    spin box's. *)
Theorem slider_dragged_to_maximum (fuel : nat) (p : linked) :
  well_wired p -> (2 <= fuel)%nat ->
  sl_value (slide p) <> sl_maximum (slide p) ->
  exists p',
    perform fuel (SetSlider (sl_maximum (slide p))) p = Some p' /\
    sb_value (spin p') = sl_maximum (slide p) /\
    sl_value (slide p') = sl_maximum (slide p) /\
    sl_maximum (slide p')
      = to_int (Qmin (inject_Z (sl_maximum (slide p)) * 1.07)
                  (inject_Z (sb_maximum (spin p)))) /\
    sl_minimum (slide p') = sl_minimum (slide p) /\
    (15 <= sl_maximum (slide p) -> sl_maximum (slide p) < sb_maximum (spin p) ->
     sl_maximum (slide p) < sl_maximum (slide p')).
Proof.
  intros Hw Hf Hne.
  destruct fuel as [|[|n]]; [lia | lia |].
  pose proof Hw as [Hr Hv]. pose proof Hr as (H1 & H2 & H3 & H4 & H5 & H6).
  cbn [perform]. rewrite (slider_setValue_syncs p Hw). cbv zeta.
  rewrite bound_inside by lia.
  assert (E : Z.eqb (sl_maximum (slide p)) (sl_value (slide p)) = false)
    by (apply Z.eqb_neq; congruence).
  rewrite E. eexists. split; [reflexivity|].
  unfold synced. cbn [spin slide sb_value sl_value sl_maximum sl_minimum].
  assert (Hnear : near_maximum (sl_maximum (slide p)) p = true)
    by (apply near_maximum_iff; lia).
  assert (Hfar : near_minimum (sl_maximum (slide p)) p = false).
  { apply not_true_is_false. rewrite near_minimum_iff. lia. }
  unfold widened_maximum, widened_minimum. rewrite Hnear, Hfar.
  change increment with 1.07%Q.
  split; [reflexivity|]. split; [reflexivity|]. split; [reflexivity|].
  split; [reflexivity|].
  intros H15 Hlt.
  change 1.07%Q with increment. rewrite clamped_above_Z.
  destruct (100 * sb_maximum (spin p) <=? sl_maximum (slide p) * 107);
    [exact Hlt|].
  rewrite Z.quot_div_nonneg by lia.
  apply Z.lt_le_trans with (sl_maximum (slide p) + 1); [lia|].
  apply Z.div_le_lower_bound; lia.
Qed.

Lemma slider_dragged_to_maximum_witness :
  exists p',
    perform 2 (SetSlider (sl_maximum (slide camera_distance_pair)))
      camera_distance_pair = Some p' /\
    sl_maximum (slide camera_distance_pair) < sl_maximum (slide p').
Proof.
  destruct (slider_dragged_to_maximum 2 camera_distance_pair
              camera_distance_pair_wired ltac:(lia) ltac:(cbn; lia))
    as (p' & Hp & _ & _ & _ & _ & Hgrow).
  exists p'. split; [exact Hp|]. apply Hgrow; cbn; lia.
Defined.

(** X12.  Open the tool on any scene, change the camera distance pair and
    the camera height pair in any way, and click Create: it ends without
    error and the camera stands at (0, height, distance) for the values
    the two pairs show, on their spin boxes and on their sliders alike;
    the distance is never negative. *)
Theorem create_after_panel_session (s : scene) (fuel : nat)
    (dacts hacts : list action) :
  (2 <= fuel)%nat ->
  exists dp hp w' c,
    perform_all fuel dacts camera_distance_pair = Some dp /\
    perform_all fuel hacts camera_height_pair = Some hp /\
    create_button_on_clicked (with_pairs dp hp (mkWorld s new_tool))
      = (inr tt, w') /\
    camera_field (ui w') = Some c /\
    translate_of c w'
      = Some (0%Q, inject_Z (sl_value (slide hp)),
                   inject_Z (sl_value (slide dp))) /\
    sb_value (spin dp) = sl_value (slide dp) /\
    sb_value (spin hp) = sl_value (slide hp) /\
    0 <= sl_value (slide dp) <= 2147483647 /\
    -2147483647 <= sl_value (slide hp) <= 2147483647.
Proof.
  intros Hf.
  destruct (perform_all_widens fuel dacts camera_distance_pair
              camera_distance_pair_wired Hf)
    as (dp & Hdp & [Hdr Hdv] & D1 & D2 & D3 & D4).
  destruct (perform_all_widens fuel hacts camera_height_pair
              camera_height_pair_wired Hf)
    as (hp & Hhp & [Hhr Hhv] & E1 & E2 & E3 & E4).
  set (w := with_pairs dp hp (mkWorld s new_tool)).
  destruct (new_camera_fresh w) as [Hc Hct].
  destruct (new_group_fresh w) as [Hg [Hgt Hgc]].
  exists dp, hp, (created_world w), (new_camera (nodes (host w))).
  split; [exact Hdp|]. split; [exact Hhp|].
  split; [apply create_runs; reflexivity|].
  split; [reflexivity|].
  split.
  { unfold translate_of, created_world. cbn [host nodes].
    rewrite lookup_insert_ne by congruence. rewrite lookup_insert_eq.
    unfold camera_node. cbn [n_tx n_ty n_tz].
    unfold w, with_pairs.
    cbn [ui camera_height_widgets camera_distance_widgets].
    rewrite Hdv, Hhv. reflexivity. }
  unfold well_ranged in Hdr, Hhr. cbn in D1, D2, D3, D4, E1, E2, E3, E4.
  repeat split; try assumption; lia.
Qed.

Lemma create_after_panel_session_witness :
  exists dp hp w' c,
    perform_all 2 [SetSpin 100] camera_distance_pair = Some dp /\
    perform_all 2 [SetSlider (-7)] camera_height_pair = Some hp /\
    create_button_on_clicked (with_pairs dp hp (mkWorld new_scene new_tool))
      = (inr tt, w') /\
    camera_field (ui w') = Some c /\
    translate_of c w'
      = Some (0%Q, inject_Z (sl_value (slide hp)),
                   inject_Z (sl_value (slide dp))) /\
    sb_value (spin dp) = sl_value (slide dp) /\
    sb_value (spin hp) = sl_value (slide hp) /\
    0 <= sl_value (slide dp) <= 2147483647 /\
    -2147483647 <= sl_value (slide hp) <= 2147483647.
Proof.
  apply (create_after_panel_session new_scene 2 [SetSpin 100] [SetSlider (-7)]).
  lia.
Defined.
